(** * SmuView: the hardware device session ([sv::devices::HardwareDevice])

    A shallow embedding of [src/devices/hardwaredevice.cpp]: the naming
    functions, the constructor with its channel classification
    ([init_signal]), the metadata demultiplexer ([feed_in_meta]) and the
    open / close / acquisition-thread life cycle.

    Conventions of the embedding.
    - [std::string] and [QString] are [string]; [QString::fromStdString]
      is the identity.
    - [shared_ptr<T>] is [option] of the pointee ([None] is [nullptr]);
      objects whose identity matters ([data::AnalogData] buffers) live in
      an explicit heap and are named by their address.
    - [assert] is modelled as compiled in: a failing assertion aborts the
      computation ([None] in the [option] monad).
    - What the libsigrok driver does (which calls raise [sigrok::Error],
      which packets it delivers) is an explicit oracle argument. *)

From Stdlib Require Import ZArith.
From stdpp Require Import base option list strings gmap.

Open Scope string_scope.
Open Scope list_scope.
Open Scope nat_scope.

(** ** Device identity and naming *)

(** The identity strings served by [sigrok::HardwareDevice]. *)
Record sr_identity := {
  vendor : string;
  model : string;
  version : string;
  serial_number : string;
  connection_id : string;
}.

(** [s.length() > 0] *)
Definition has_length (s : string) : bool := negb (Nat.eqb (String.length s) 0).

(** One of the four leading blocks of [full_name]: when the field is not
    empty, [name.append(field); name.append(sep); sep = QString(" ")].
    The pair is [(name, sep)]. *)
Definition append_field (field : string) (acc : string * string) : string * string :=
  let '(name, sep) := acc in
  if has_length field
  then (String.append (String.append name field) sep, " ")
  else (name, sep).

(** The closing block shared by [full_name] and [short_name]: when the
    connection id is not empty,
    [name.append(sep); name.append("("); name.append(id); name.append(")")]. *)
Definition append_connection_id (id : string) (acc : string * string) : string :=
  let '(name, sep) := acc in
  if has_length id
  then String.append (String.append (String.append (String.append name sep) "(") id) ")"
  else name.

Definition full_name (d : sr_identity) : string :=
  let acc := ("", "") in
  let acc := append_field (vendor d) acc in
  let acc := append_field (model d) acc in
  let acc := append_field (version d) acc in
  let acc := append_field (serial_number d) acc in
  append_connection_id (connection_id d) acc.

Definition short_name (d : sr_identity) : string :=
  let acc := ("", "") in
  let acc := append_field (vendor d) acc in
  let acc := append_field (model d) acc in
  append_connection_id (connection_id d) acc.

(** The name as the specification words it: the non-empty fields, the
    connection id in parentheses, joined by single spaces. *)
Definition name_parts (d : sr_identity) : list string :=
  filter (λ s, has_length s = true)
    [vendor d; model d; version d; serial_number d]
  ++ (if has_length (connection_id d)
      then [String.append (String.append "(" (connection_id d)) ")"] else []).

Definition full_name_spec (d : sr_identity) : string :=
  String.concat " " (name_parts d).

(** ** The driver's view of a device *)

(** The configuration keys that the source names. [SR_CONF_OTHER] stands
    for every other key of libsigrok's [sr_configkey]. *)
Inductive ConfigKey :=
  | SR_CONF_POWER_SUPPLY
  | SR_CONF_ELECTRONIC_LOAD
  | SR_CONF_MULTIMETER
  | SR_CONF_DEMO_DEV
  | SR_CONF_ENABLED
  | SR_CONF_VOLTAGE_TARGET
  | SR_CONF_CURRENT_LIMIT
  | SR_CONF_OVER_TEMPERATURE_PROTECTION
  | SR_CONF_OVER_TEMPERATURE_PROTECTION_ACTIVE
  | SR_CONF_OVER_VOLTAGE_PROTECTION_ENABLED
  | SR_CONF_OVER_VOLTAGE_PROTECTION_ACTIVE
  | SR_CONF_OVER_VOLTAGE_PROTECTION_THRESHOLD
  | SR_CONF_OVER_CURRENT_PROTECTION_ENABLED
  | SR_CONF_OVER_CURRENT_PROTECTION_ACTIVE
  | SR_CONF_OVER_CURRENT_PROTECTION_THRESHOLD
  | SR_CONF_UNDER_VOLTAGE_CONDITION
  | SR_CONF_UNDER_VOLTAGE_CONDITION_ACTIVE
  | SR_CONF_UNDER_VOLTAGE_CONDITION_THRESHOLD
  | SR_CONF_OTHER (id : nat).

#[global] Instance ConfigKey_eq_dec : EqDecision ConfigKey.
Proof. solve_decision. Defined.

(** [sr_channel->type()->id()]; [SR_CHANNEL_OTHER] is whatever reaches the
    [default:] label of the switch in [init_signal]. *)
Inductive ChannelType := SR_CHANNEL_LOGIC | SR_CHANNEL_ANALOG | SR_CHANNEL_OTHER.

(** A [shared_ptr<sigrok::Channel>]: [ch_ptr] is the pointer (the key of
    [sr_channel_signal_map_]). *)
Record Channel := {
  ch_ptr : nat;
  ch_type : ChannelType;
  ch_name : string;
}.

Record ChannelGroup := {
  cg_name : string;
  cg_channels : list Channel;
}.

(** What the constructor reads from [sr_device]: the identity, the
    driver's [config_keys()], [channels()], and [channel_groups()] in the
    iteration order of the [std::map] (one entry per group name). *)
Record sr_device := {
  sr_identity_of : sr_identity;
  sr_config_keys : list ConfigKey;
  sr_channels : list Channel;
  sr_channel_groups : list (string * ChannelGroup);
}.

(** [sr_keys.count(k)] as a truth value *)
Definition count (k : ConfigKey) (keys : list ConfigKey) : bool :=
  bool_decide (k ∈ keys).

(** ** Signals and their buffers *)

(** The members of [sigrok::Quantity] and [sigrok::Unit] that the source
    uses. *)
Inductive Quantity := TIME | VOLTAGE | CURRENT | FREQUENCY.
Inductive Unit := SECOND | VOLT | AMPERE | HERTZ.

#[global] Instance Quantity_eq_dec : EqDecision Quantity.
Proof. solve_decision. Defined.
#[global] Instance Unit_eq_dec : EqDecision Unit.
Proof. solve_decision. Defined.

(** Modelled from the spec: [data::AnalogData] (src/data/analogdata.hpp is
    not among the sources) is a buffer with static metadata (quantity,
    unit, fixed-quantity flag); a field that no setter has touched is
    "not set", here [None]. The samples play no role at construction. *)
Record AnalogData := {
  ad_fixed_quantity : option bool;
  ad_quantity : option Quantity;
  ad_unit : option Unit;
}.

(** [make_shared<data::AnalogData>()] *)
Definition new_AnalogData : AnalogData :=
  {| ad_fixed_quantity := None; ad_quantity := None; ad_unit := None |}.

Definition set_fixed_quantity (b : bool) (a : AnalogData) : AnalogData :=
  {| ad_fixed_quantity := Some b; ad_quantity := ad_quantity a; ad_unit := ad_unit a |}.
Definition set_quantity (q : Quantity) (a : AnalogData) : AnalogData :=
  {| ad_fixed_quantity := ad_fixed_quantity a; ad_quantity := Some q; ad_unit := ad_unit a |}.
Definition set_unit (u : Unit) (a : AnalogData) : AnalogData :=
  {| ad_fixed_quantity := ad_fixed_quantity a; ad_quantity := ad_quantity a; ad_unit := Some u |}.

(** The address of an [AnalogData] on the heap: its allocation index. *)
Definition addr := nat.

Inductive SignalChannelType := AnalogChannel.

(** Modelled from the spec: [data::BaseSignal] (src/data/basesignal.hpp is
    not among the sources) is derived from exactly one channel, whose name
    is its internal name; it carries the fixed-quantity flag it was
    constructed with, a start timestamp, and references to its time buffer
    and its value buffer (null until set). *)
Record BaseSignal := {
  sig_sr_channel : Channel;
  sig_channel_type : SignalChannelType;
  sig_fixed_mq : bool;
  sig_time_start : option Z;
  sig_time_data : option addr;
  sig_data : option addr;
}.

(** [make_shared<data::BaseSignal>(sr_channel, type, fixed_mq)] *)
Definition new_BaseSignal (c : Channel) (t : SignalChannelType) (fixed_mq : bool) : BaseSignal :=
  {| sig_sr_channel := c; sig_channel_type := t; sig_fixed_mq := fixed_mq;
     sig_time_start := None; sig_time_data := None; sig_data := None |}.

(** Modelled from the spec: [BaseSignal::internal_name()] is the internal
    short name of the channel the signal is derived from. *)
Definition internal_name (s : BaseSignal) : string := ch_name (sig_sr_channel s).

Definition set_time_start (t : Z) (s : BaseSignal) : BaseSignal :=
  {| sig_sr_channel := sig_sr_channel s; sig_channel_type := sig_channel_type s;
     sig_fixed_mq := sig_fixed_mq s; sig_time_start := Some t;
     sig_time_data := sig_time_data s; sig_data := sig_data s |}.
Definition set_time_data (a : addr) (s : BaseSignal) : BaseSignal :=
  {| sig_sr_channel := sig_sr_channel s; sig_channel_type := sig_channel_type s;
     sig_fixed_mq := sig_fixed_mq s; sig_time_start := sig_time_start s;
     sig_time_data := Some a; sig_data := sig_data s |}.
Definition set_data (a : addr) (s : BaseSignal) : BaseSignal :=
  {| sig_sr_channel := sig_sr_channel s; sig_channel_type := sig_channel_type s;
     sig_fixed_mq := sig_fixed_mq s; sig_time_start := sig_time_start s;
     sig_time_data := sig_time_data s; sig_data := Some a |}.

(** [QString::startsWith(p)] (case sensitive) *)
Fixpoint startsWith (s p : string) {struct p} : bool :=
  match p with
  | EmptyString => true
  | String c p' =>
      match s with
      | EmptyString => false
      | String d s' => if Ascii.eqb d c then startsWith s' p' else false
      end
  end.

(** ** The device session *)

Inductive DeviceType := POWER_SUPPLY | ELECTRONIC_LOAD | MULTIMETER | DEMO_DEV | UNKNOWN.

(** [make_shared<Configurable>(sr_cg)] and [make_shared<Configurable>(sr_device_)] *)
Inductive Configurable :=
  | ConfigurableOfGroup (sr_cg : ChannelGroup)
  | ConfigurableOfDevice.

(** The members of [HardwareDevice] that the constructor fills, and the
    heap of [AnalogData] objects allocated so far ([analog_heap], the
    address of an object is its position). *)
Record HardwareDevice := {
  type_ : DeviceType;
  analog_heap : list AnalogData;
  all_signals_ : list BaseSignal;
  signal_name_map_ : gmap string BaseSignal;
  sr_channel_signal_map_ : gmap nat BaseSignal;
  voltage_signal_ : option BaseSignal;
  current_signal_ : option BaseSignal;
  measurement_signal_ : option BaseSignal;
  configurables_ : list Configurable;
  sr_channel_group_name_map_ : gmap string ChannelGroup;
  channel_group_name_signals_map_ : gmap string (list BaseSignal);
}.

(** [assert(cond)]: a failed assertion aborts. *)
Definition assert (cond : bool) : option unit :=
  if cond then Some () else None.

(** A string literal used as a condition, as in [assert("Unknown device")]:
    the array decays to a pointer that is never null. *)
Definition literal_as_condition (s : string) : bool := true.

(** [std::map::insert]: the map is left as it is when the key is present. *)
Definition map_insert {K V} `{Countable K} (k : K) (v : V) (m : gmap K V) : gmap K V :=
  match m !! k with
  | Some _ => m
  | None => <[k := v]> m
  end.

(** [HardwareDevice::init_time_data]: the content of the fresh buffer. *)
Definition init_time_data : AnalogData :=
  set_unit SECOND (set_quantity TIME (set_fixed_quantity true new_AnalogData)).

(** [init_signal], the chain that classifies the value buffer by the
    signal's internal name. *)
Definition init_signal_data (name : string) (fixed_mq : bool) (data : AnalogData) : AnalogData :=
  if startsWith name "V" then
    set_unit VOLT (set_quantity VOLTAGE (set_fixed_quantity fixed_mq data))
  else if startsWith name "I" then
    set_unit AMPERE (set_quantity CURRENT (set_fixed_quantity fixed_mq data))
  else if startsWith name "F" then
    set_unit HERTZ (set_quantity FREQUENCY (set_fixed_quantity fixed_mq data))
  else if String.eqb name "P1" then
    set_fixed_quantity fixed_mq data
  else if startsWith name "A" then
    set_unit VOLT (set_quantity VOLTAGE (set_fixed_quantity fixed_mq data))
  else data.

(** [!ptr] on a [shared_ptr] *)
Definition is_null {A} (p : option A) : bool :=
  match p with Some _ => false | None => true end.

(** [init_signal], the closing chain that records the canonical signals;
    the triple is [(voltage_signal_, current_signal_, measurement_signal_)]. *)
Definition init_signal_canonical (signal : BaseSignal)
    (vcm : option BaseSignal * option BaseSignal * option BaseSignal)
  : option BaseSignal * option BaseSignal * option BaseSignal :=
  let '(v, c, m) := vcm in
  let name := internal_name signal in
  if startsWith name "V" && is_null v then (Some signal, c, m)
  else if startsWith name "I" && is_null c then (v, Some signal, m)
  else if String.eqb name "P1" && is_null m then (v, c, Some signal)
  else if String.eqb name "A1" && is_null m then (v, c, Some signal)
  else (v, c, m).

(** [HardwareDevice::init_signal]. [clock n] is what the [n]-th call of
    [QDateTime::currentMSecsSinceEpoch()] returns (one call per signal
    created). The result is the returned signal pointer and the updated
    device; [None] is the abort of [assert(false)]. *)
Definition init_signal (clock : nat → Z) (sr_channel : Channel)
    (common_time_data : option addr) (fixed_mq : bool) (d : HardwareDevice)
  : option (option BaseSignal * HardwareDevice) :=
  match ch_type sr_channel with
  | SR_CHANNEL_LOGIC => Some (None, d)
  | SR_CHANNEL_ANALOG =>
      let signal := new_BaseSignal sr_channel AnalogChannel fixed_mq in
      let signal := set_time_start (clock (length (all_signals_ d))) signal in
      let '(time_data, heap) :=
        match common_time_data with
        | Some a => (a, analog_heap d)
        | None => (length (analog_heap d), analog_heap d ++ [init_time_data])
        end in
      let signal := set_time_data time_data signal in
      let data := init_signal_data (internal_name signal) fixed_mq new_AnalogData in
      let signal := set_data (length heap) signal in
      let '(v, c, m) :=
        init_signal_canonical signal
          (voltage_signal_ d, current_signal_ d, measurement_signal_ d) in
      Some (Some signal,
            {| type_ := type_ d;
               analog_heap := heap ++ [data];
               all_signals_ := all_signals_ d ++ [signal];
               signal_name_map_ :=
                 map_insert (internal_name signal) signal (signal_name_map_ d);
               sr_channel_signal_map_ :=
                 map_insert (ch_ptr sr_channel) signal (sr_channel_signal_map_ d);
               voltage_signal_ := v;
               current_signal_ := c;
               measurement_signal_ := m;
               configurables_ := configurables_ d;
               sr_channel_group_name_map_ := sr_channel_group_name_map_ d;
               channel_group_name_signals_map_ := channel_group_name_signals_map_ d |})
  | SR_CHANNEL_OTHER => _ ← assert false; Some (None, d)
  end.

(** The constructor's loop over [sr_device_->channels()]. *)
Fixpoint init_signals (clock : nat → Z) (chs : list Channel)
    (common_time_data : option addr) (fixed_mq : bool) (d : HardwareDevice)
  : option HardwareDevice :=
  match chs with
  | [] => Some d
  | sr_channel :: chs' =>
      r ← init_signal clock sr_channel common_time_data fixed_mq d;
      init_signals clock chs' common_time_data fixed_mq r.2
  end.

(** The body of the constructor's loop over the channel groups. *)
Definition add_channel_group (d : HardwareDevice) (sr_cg_pair : string * ChannelGroup)
  : HardwareDevice :=
  let sr_cg := sr_cg_pair.2 in
  let cg_signals :=
    omap (λ sr_c, sr_channel_signal_map_ d !! ch_ptr sr_c) (cg_channels sr_cg) in
  {| type_ := type_ d;
     analog_heap := analog_heap d;
     all_signals_ := all_signals_ d;
     signal_name_map_ := signal_name_map_ d;
     sr_channel_signal_map_ := sr_channel_signal_map_ d;
     voltage_signal_ := voltage_signal_ d;
     current_signal_ := current_signal_ d;
     measurement_signal_ := measurement_signal_ d;
     configurables_ := configurables_ d ++ [ConfigurableOfGroup sr_cg];
     sr_channel_group_name_map_ :=
       map_insert (cg_name sr_cg) sr_cg (sr_channel_group_name_map_ d);
     channel_group_name_signals_map_ :=
       map_insert (cg_name sr_cg) cg_signals (channel_group_name_signals_map_ d) |}.

(** The [else] branch: one [Configurable] for the whole device. *)
Definition add_device_configurable (d : HardwareDevice) : HardwareDevice :=
  {| type_ := type_ d;
     analog_heap := analog_heap d;
     all_signals_ := all_signals_ d;
     signal_name_map_ := signal_name_map_ d;
     sr_channel_signal_map_ := sr_channel_signal_map_ d;
     voltage_signal_ := voltage_signal_ d;
     current_signal_ := current_signal_ d;
     measurement_signal_ := measurement_signal_ d;
     configurables_ := configurables_ d ++ [ConfigurableOfDevice];
     sr_channel_group_name_map_ := sr_channel_group_name_map_ d;
     channel_group_name_signals_map_ := channel_group_name_signals_map_ d |}.

Definition init_configurables (groups : list (string * ChannelGroup)) (d : HardwareDevice)
  : HardwareDevice :=
  if negb (Nat.eqb (length groups) 0)
  then foldl add_channel_group d groups
  else add_device_configurable d.

(** The device-type policy at the head of the constructor: the type tag,
    [common_time_data], [fixed_mq], and the heap after the allocation that
    [init_time_data()] makes for an electronic load. *)
Definition device_options (sr_keys : list ConfigKey)
  : option (DeviceType * option addr * bool * list AnalogData) :=
  if count SR_CONF_POWER_SUPPLY sr_keys then
    Some (POWER_SUPPLY, None, true, [])
  else if count SR_CONF_ELECTRONIC_LOAD sr_keys then
    Some (ELECTRONIC_LOAD, Some 0, true, [init_time_data])
  else if count SR_CONF_MULTIMETER sr_keys then
    Some (MULTIMETER, None, false, [])
  else if count SR_CONF_DEMO_DEV sr_keys then
    Some (DEMO_DEV, None, false, [])
  else
    _ ← assert (literal_as_condition "Unknown device");
    Some (UNKNOWN, None, false, []).

(** [HardwareDevice::HardwareDevice]. [None]: an assertion aborted the
    construction. *)
Definition HardwareDevice_new (clock : nat → Z) (sr : sr_device) : option HardwareDevice :=
  opts ← device_options (sr_config_keys sr);
  let '(type, common_time_data, fixed_mq, heap) := opts in
  let d :=
    {| type_ := type;
       analog_heap := heap;
       all_signals_ := [];
       signal_name_map_ := ∅;
       sr_channel_signal_map_ := ∅;
       voltage_signal_ := None;
       current_signal_ := None;
       measurement_signal_ := None;
       configurables_ := [];
       sr_channel_group_name_map_ := ∅;
       channel_group_name_signals_map_ := ∅ |} in
  d ← init_signals clock (sr_channels sr) common_time_data fixed_mq d;
  Some (init_configurables (sr_channel_groups sr) d).

Definition voltage_signal (d : HardwareDevice) : option BaseSignal := voltage_signal_ d.
Definition current_signal (d : HardwareDevice) : option BaseSignal := current_signal_ d.
Definition measurement_signal (d : HardwareDevice) : option BaseSignal := measurement_signal_ d.
Definition all_signals (d : HardwareDevice) : list BaseSignal := all_signals_ d.
Definition configurables (d : HardwareDevice) : list Configurable := configurables_ d.

(** The quantity and the unit of a signal: those of its value buffer. *)
Definition signal_quantity (d : HardwareDevice) (s : BaseSignal) : option Quantity :=
  a ← sig_data s; data ← analog_heap d !! a; ad_quantity data.
Definition signal_unit (d : HardwareDevice) (s : BaseSignal) : option Unit :=
  a ← sig_data s; data ← analog_heap d !! a; ad_unit data.

(** ** Metadata packets *)

(** A [double] is only passed through: it is carried as its 64-bit
    pattern. *)
Definition double := Z.

(** The [GVariant] of a metadata entry. The GLib getters check the type of
    the value and return [FALSE] and [0] on a value of another type. *)
Inductive GVariant :=
  | GVariantBoolean (b : bool)
  | GVariantDouble (x : double)
  | GVariantOther.

Definition g_variant_get_boolean (v : GVariant) : bool :=
  match v with GVariantBoolean b => b | _ => false end.

Definition g_variant_get_double (v : GVariant) : double :=
  match v with GVariantDouble x => x | _ => 0%Z end.

(** The Qt signals of [Configurable] that [feed_in_meta] emits. *)
Inductive ConfigurableSignal :=
  | enabled_changed (b : bool)
  | voltage_target_changed (x : double)
  | current_limit_changed (x : double)
  | otp_enabled_changed (b : bool)
  | otp_active_changed (b : bool)
  | ovp_enabled_changed (b : bool)
  | ovp_active_changed (b : bool)
  | ovp_threshold_changed (x : double)
  | ocp_enabled_changed (b : bool)
  | ocp_active_changed (b : bool)
  | ocp_threshold_changed (x : double)
  | uvc_enabled_changed (b : bool)
  | uvc_active_changed (b : bool).

(** An emission: the object that emits and the signal with its argument. *)
Definition emission : Type := Configurable * ConfigurableSignal.

(** [Q_EMIT configurable->sig(...)]: dereferences [configurable]; [None]
    is the dereference of a null pointer. *)
Definition Q_EMIT (configurable : option Configurable) (sig : ConfigurableSignal)
    (emitted : list emission) : option (list emission) :=
  c ← configurable; Some (emitted ++ [(c, sig)]).

(** The [switch] of [feed_in_meta] on one entry of [sr_meta->config()]. *)
Definition feed_in_meta_entry (configurable : option Configurable)
    (entry : ConfigKey * GVariant) (emitted : list emission) : option (list emission) :=
  match entry.1 with
  | SR_CONF_ENABLED =>
      Q_EMIT configurable (enabled_changed (g_variant_get_boolean entry.2)) emitted
  | SR_CONF_VOLTAGE_TARGET =>
      Q_EMIT configurable (voltage_target_changed (g_variant_get_double entry.2)) emitted
  | SR_CONF_CURRENT_LIMIT =>
      Q_EMIT configurable (current_limit_changed (g_variant_get_double entry.2)) emitted
  | SR_CONF_OVER_TEMPERATURE_PROTECTION =>
      Q_EMIT configurable (otp_enabled_changed (g_variant_get_boolean entry.2)) emitted
  | SR_CONF_OVER_TEMPERATURE_PROTECTION_ACTIVE =>
      Q_EMIT configurable (otp_active_changed (g_variant_get_boolean entry.2)) emitted
  | SR_CONF_OVER_VOLTAGE_PROTECTION_ENABLED =>
      Q_EMIT configurable (ovp_enabled_changed (g_variant_get_boolean entry.2)) emitted
  | SR_CONF_OVER_VOLTAGE_PROTECTION_ACTIVE =>
      Q_EMIT configurable (ovp_active_changed (g_variant_get_boolean entry.2)) emitted
  | SR_CONF_OVER_VOLTAGE_PROTECTION_THRESHOLD =>
      Q_EMIT configurable (ovp_threshold_changed (g_variant_get_double entry.2)) emitted
  | SR_CONF_OVER_CURRENT_PROTECTION_ENABLED =>
      Q_EMIT configurable (ocp_enabled_changed (g_variant_get_boolean entry.2)) emitted
  | SR_CONF_OVER_CURRENT_PROTECTION_ACTIVE =>
      Q_EMIT configurable (ocp_active_changed (g_variant_get_boolean entry.2)) emitted
  | SR_CONF_OVER_CURRENT_PROTECTION_THRESHOLD =>
      Q_EMIT configurable (ocp_threshold_changed (g_variant_get_double entry.2)) emitted
  | SR_CONF_UNDER_VOLTAGE_CONDITION =>
      Q_EMIT configurable (uvc_enabled_changed (g_variant_get_boolean entry.2)) emitted
  | SR_CONF_UNDER_VOLTAGE_CONDITION_ACTIVE =>
      Q_EMIT configurable (uvc_active_changed (g_variant_get_boolean entry.2)) emitted
  | _ => Some emitted
  end.

(** The loop of [feed_in_meta] over the entries. *)
Fixpoint feed_in_meta_loop (configurable : option Configurable)
    (config : list (ConfigKey * GVariant)) (emitted : list emission)
  : option (list emission) :=
  match config with
  | [] => Some emitted
  | entry :: config' =>
      emitted' ← feed_in_meta_entry configurable entry emitted;
      feed_in_meta_loop configurable config' emitted'
  end.

(** [HardwareDevice::feed_in_meta]: the emissions in order, or [None] when
    a null [configurable] is dereferenced. *)
Definition feed_in_meta (d : HardwareDevice) (config : list (ConfigKey * GVariant))
  : option (list emission) :=
  let configurable :=
    if negb (Nat.eqb (length (configurables_ d)) 0)
    then configurables_ d !! 0
    else None in
  feed_in_meta_loop configurable config [].

(** The table of recognized keys as the specification lists it, with the
    signal each one stands for. *)
Definition recognized (entry : ConfigKey * GVariant) : option ConfigurableSignal :=
  let b := g_variant_get_boolean entry.2 in
  let x := g_variant_get_double entry.2 in
  match entry.1 with
  | SR_CONF_ENABLED => Some (enabled_changed b)
  | SR_CONF_VOLTAGE_TARGET => Some (voltage_target_changed x)
  | SR_CONF_CURRENT_LIMIT => Some (current_limit_changed x)
  | SR_CONF_OVER_TEMPERATURE_PROTECTION => Some (otp_enabled_changed b)
  | SR_CONF_OVER_TEMPERATURE_PROTECTION_ACTIVE => Some (otp_active_changed b)
  | SR_CONF_OVER_VOLTAGE_PROTECTION_ENABLED => Some (ovp_enabled_changed b)
  | SR_CONF_OVER_VOLTAGE_PROTECTION_ACTIVE => Some (ovp_active_changed b)
  | SR_CONF_OVER_VOLTAGE_PROTECTION_THRESHOLD => Some (ovp_threshold_changed x)
  | SR_CONF_OVER_CURRENT_PROTECTION_ENABLED => Some (ocp_enabled_changed b)
  | SR_CONF_OVER_CURRENT_PROTECTION_ACTIVE => Some (ocp_active_changed b)
  | SR_CONF_OVER_CURRENT_PROTECTION_THRESHOLD => Some (ocp_threshold_changed x)
  | SR_CONF_UNDER_VOLTAGE_CONDITION => Some (uvc_enabled_changed b)
  | SR_CONF_UNDER_VOLTAGE_CONDITION_ACTIVE => Some (uvc_active_changed b)
  | _ => None
  end.

(** ** The life cycle: open, close and the acquisition thread *)

Inductive aquisition_state := Stopped | Running.

#[global] Instance aquisition_state_eq_dec : EqDecision aquisition_state.
Proof. solve_decision. Defined.

(** Who executes a statement: the thread that calls [open] and [close], or
    the acquisition thread. *)
Inductive actor := Caller | Task.

(** The calls into libsigrok ([sr_device_] and [sr_session_]). *)
Inductive driver_call :=
  | DeviceOpen | DeviceClose
  | SessionAddDevice | SessionRemoveDevices
  | SessionAddDatafeedCallback | SessionRemoveDatafeedCallbacks
  | SessionStart | SessionRun | SessionStop.

(** What an observer sees, in order. *)
Inductive event :=
  | EvErrorHandler (h : nat) (msg : string)
  | EvState (who : actor) (s : aquisition_state)
  | EvDriver (c : driver_call)
  | EvFeedEnter
  | EvFeedLeave.

(** A packet as far as the life cycle is concerned: a data packet, with
    whether appending its samples runs out of memory, or any other packet. *)
Inductive packet :=
  | DataPacket (alloc_fails : bool)
  | OtherPacket.

(** The driver's behaviour during one [open]: whether
    [sr_device_->open()], [sr_session_->start()] and [sr_session_->run()]
    raise [sigrok::Error] ([Some] of its [what()]), and the packets that
    the run loop delivers to the datafeed callback before it returns or
    raises. The other driver calls of the source are not guarded by a
    handler; the oracle lets them succeed. *)
Record driver := {
  sr_open : option string;
  sr_start : option string;
  sr_run_packets : list packet;
  sr_run : option string;
}.

(** The atomic statements of the acquisition thread. *)
Inductive step :=
  | Assert (cond : bool)
  | SetOutOfMemory (b : bool)
  | DriverCall (c : driver_call)
  | CallErrorHandler (h : nat) (msg : string)
  | SetState (s : aquisition_state)
  | FeedIn (p : packet)
  | FreeUnusedMemory
  | ReportOutOfMemory (h : nat).

(** The life-cycle members of [HardwareDevice]. [aquisition_thread_] is
    [Some rest] for a joinable thread that still has the statements
    [rest] to execute. [aborted]: the process is gone (failed [assert],
    [std::terminate]). [trace]: the events so far, oldest first. *)
Record session := {
  device_open_ : bool;
  aquisition_state_ : aquisition_state;
  out_of_memory_ : bool;
  aquisition_thread_ : option (list step);
  aborted : bool;
  trace : list event;
}.

Definition set_device_open (b : bool) (st : session) : session :=
  {| device_open_ := b; aquisition_state_ := aquisition_state_ st;
     out_of_memory_ := out_of_memory_ st; aquisition_thread_ := aquisition_thread_ st;
     aborted := aborted st; trace := trace st |}.

Definition log (e : event) (st : session) : session :=
  {| device_open_ := device_open_ st; aquisition_state_ := aquisition_state_ st;
     out_of_memory_ := out_of_memory_ st; aquisition_thread_ := aquisition_thread_ st;
     aborted := aborted st; trace := trace st ++ [e] |}.

(** [aquisition_state_ = s], executed by [who] *)
Definition set_aquisition_state (who : actor) (s : aquisition_state) (st : session) : session :=
  {| device_open_ := device_open_ st; aquisition_state_ := s;
     out_of_memory_ := out_of_memory_ st; aquisition_thread_ := aquisition_thread_ st;
     aborted := aborted st; trace := trace st ++ [EvState who s] |}.

Definition set_out_of_memory (b : bool) (st : session) : session :=
  {| device_open_ := device_open_ st; aquisition_state_ := aquisition_state_ st;
     out_of_memory_ := b; aquisition_thread_ := aquisition_thread_ st;
     aborted := aborted st; trace := trace st |}.

Definition set_aquisition_thread (t : option (list step)) (st : session) : session :=
  {| device_open_ := device_open_ st; aquisition_state_ := aquisition_state_ st;
     out_of_memory_ := out_of_memory_ st; aquisition_thread_ := t;
     aborted := aborted st; trace := trace st |}.

Definition abort (st : session) : session :=
  {| device_open_ := device_open_ st; aquisition_state_ := aquisition_state_ st;
     out_of_memory_ := out_of_memory_ st; aquisition_thread_ := aquisition_thread_ st;
     aborted := true; trace := trace st |}.

(** [tr("Out of memory, acquisition stopped.")], untranslated *)
Definition out_of_memory_message : string := "Out of memory, acquisition stopped.".

(** Modelled from the spec: the datafeed callback [data_feed_in] is not
    among the sources. Per the specification, an allocation failure while
    the samples of a data packet are appended sets the out-of-memory flag
    and aborts the processing of that packet; nothing is thrown out of the
    callback and [error_handler] is not called from it. *)
Definition data_feed_in (p : packet) (st : session) : session :=
  let st := log EvFeedEnter st in
  let st :=
    match p with
    | DataPacket true => set_out_of_memory true st
    | DataPacket false => st
    | OtherPacket => st
    end in
  log EvFeedLeave st.

(** [HardwareDevice::aquisition_thread_proc] as the sequence of statements
    it executes for a given driver behaviour. An empty [std::function] is
    [None]. *)
Definition aquisition_thread_proc (drv : driver) (error_handler : option nat) : list step :=
  match error_handler with
  | None => [Assert false]
  | Some h =>
      Assert true :: SetOutOfMemory false :: DriverCall SessionStart ::
      match sr_start drv with
      | Some e => [CallErrorHandler h e]
      | None =>
          SetState Running :: DriverCall SessionRun ::
          map FeedIn (sr_run_packets drv) ++
          match sr_run drv with
          | Some e => [CallErrorHandler h e; SetState Stopped]
          | None => [SetState Stopped; FreeUnusedMemory; ReportOutOfMemory h]
          end
      end
  end.

(** One statement of the acquisition thread. *)
Definition exec_step (s : step) (st : session) : session :=
  if aborted st then st else
  match s with
  | Assert cond => if cond then st else abort st
  | SetOutOfMemory b => set_out_of_memory b st
  | DriverCall c => log (EvDriver c) st
  | CallErrorHandler h msg => log (EvErrorHandler h msg) st
  | SetState s => set_aquisition_state Task s st
  | FeedIn p => data_feed_in p st
  | FreeUnusedMemory => st
  | ReportOutOfMemory h =>
      if out_of_memory_ st
      then log (EvErrorHandler h out_of_memory_message) st
      else st
  end.

Definition exec_steps (l : list step) (st : session) : session :=
  foldl (λ st s, exec_step s st) st l.

(** The scheduler lets the acquisition thread execute its next [n]
    statements. *)
Definition thread_run (n : nat) (st : session) : session :=
  match aquisition_thread_ st with
  | None => st
  | Some rest =>
      set_aquisition_thread (Some (drop n rest)) (exec_steps (take n rest) st)
  end.

(** [aquisition_thread_.join()]: the thread runs to its end. *)
Definition join (st : session) : session :=
  match aquisition_thread_ st with
  | None => st
  | Some rest => set_aquisition_thread None (exec_steps rest st)
  end.

(** [HardwareDevice::close] *)
Definition close (st : session) : session :=
  if negb (device_open_ st) then st else
  let st := log (EvDriver SessionRemoveDatafeedCallbacks) st in
  let st :=
    if bool_decide (aquisition_state_ st ≠ Stopped)
    then set_aquisition_state Caller Stopped (log (EvDriver SessionStop) st)
    else st in
  let st := if bool_decide (is_Some (aquisition_thread_ st)) then join st else st in
  let st := log (EvDriver SessionRemoveDevices) st in
  let st := log (EvDriver DeviceClose) st in
  set_device_open false st.

(** How a call of [open] ends. *)
Inductive outcome :=
  | Returned
  | Thrown (what : string)
  | Terminated.

(** [HardwareDevice::open]. [n] is the schedule: the number of statements
    that the new thread executes between its creation and the caller's
    closing assignment [aquisition_state_ = Running]. Assigning to a
    joinable [std::thread] calls [std::terminate]. *)
Definition open (drv : driver) (error_handler : option nat) (n : nat) (st : session)
  : outcome * session :=
  let st := if device_open_ st then close st else st in
  match sr_open drv with
  | Some e => (Thrown e, st)
  | None =>
      let st := log (EvDriver DeviceOpen) st in
      let st := log (EvDriver SessionAddDevice) st in
      let st := log (EvDriver SessionAddDatafeedCallback) st in
      let st := set_device_open true st in
      match aquisition_thread_ st with
      | Some _ => (Terminated, abort st)
      | None =>
          let st :=
            set_aquisition_thread (Some (aquisition_thread_proc drv error_handler)) st in
          let st := thread_run n st in
          (Returned, set_aquisition_state Caller Running st)
      end
  end.

(** *** Reading a trace *)

(** A call of [error_handler] as the trace shows it: the handler, the
    message, whether the acquisition thread's last assignment to
    [aquisition_state_] before the call was [Stopped], and whether the call
    was made inside the datafeed callback. *)
Record handler_call := {
  hc_handler : nat;
  hc_msg : string;
  hc_task_stopped : bool;
  hc_in_feed : bool;
}.

#[global] Instance handler_call_eq_dec : EqDecision handler_call.
Proof. solve_decision. Defined.

Fixpoint handler_calls_from (task_stopped in_feed : bool) (tr : list event)
  : list handler_call :=
  match tr with
  | [] => []
  | EvErrorHandler h msg :: tr' =>
      {| hc_handler := h; hc_msg := msg;
         hc_task_stopped := task_stopped; hc_in_feed := in_feed |}
      :: handler_calls_from task_stopped in_feed tr'
  | EvState Task s :: tr' =>
      handler_calls_from (bool_decide (s = Stopped)) in_feed tr'
  | EvState Caller _ :: tr' => handler_calls_from task_stopped in_feed tr'
  | EvDriver _ :: tr' => handler_calls_from task_stopped in_feed tr'
  | EvFeedEnter :: tr' => handler_calls_from task_stopped true tr'
  | EvFeedLeave :: tr' => handler_calls_from task_stopped false tr'
  end.

(** The calls of [error_handler] in the events of one run of the
    acquisition thread. *)
Definition handler_calls (tr : list event) : list handler_call :=
  handler_calls_from false false tr.

(** The events that [st'] has and its predecessor [st] had not. *)
Definition events_since (st st' : session) : list event :=
  drop (length (trace st)) (trace st').

(** ** Vocabulary of the statements *)

#[global] Instance ChannelType_eq_dec : EqDecision ChannelType.
Proof. solve_decision. Defined.

(** The analog channels of a device, in the driver's order. *)
Definition analog_channels (sr : sr_device) : list Channel :=
  filter (λ c, ch_type c = SR_CHANNEL_ANALOG) (sr_channels sr).

(** The time buffers on the heap: the buffers of quantity [TIME]. *)
Definition time_buffers (d : HardwareDevice) : list AnalogData :=
  filter (λ a, ad_quantity a = Some TIME) (analog_heap d).

(** The first signal created that satisfies [P]. *)
Definition first_signal (P : BaseSignal → Prop) `{∀ s, Decision (P s)}
    (d : HardwareDevice) : option BaseSignal :=
  head (filter P (all_signals d)).

(** Every signal owns a value buffer classified by its name and refers to
    a time buffer; with a common time buffer, to that one. *)
Definition buffers_ok (common : option addr) (fixed_mq : bool) (d : HardwareDevice) : Prop :=
  (∀ c, common = Some c → analog_heap d !! c = Some init_time_data) ∧
  ∀ s, s ∈ all_signals_ d →
    sig_fixed_mq s = fixed_mq ∧
    ∃ a t,
      sig_data s = Some a ∧
      analog_heap d !! a = Some (init_signal_data (internal_name s) fixed_mq new_AnalogData) ∧
      sig_time_data s = Some t ∧
      analog_heap d !! t = Some init_time_data ∧
      (∀ c, common = Some c → t = c).

(** Without a common time buffer, the signals' time buffers are pairwise
    distinct, and there are as many time buffers as signals. *)
Definition private_time_ok (d : HardwareDevice) : Prop :=
  NoDup (sig_time_data <$> all_signals_ d) ∧
  length (time_buffers d) = length (all_signals_ d) ∧
  ∀ s, s ∈ all_signals_ d → ∃ t, sig_time_data s = Some t ∧ t < length (analog_heap d).

(** The three canonical signals are the first signals of their names. *)
Definition canonical_ok (d : HardwareDevice) : Prop :=
  voltage_signal_ d
    = head (filter (λ s, startsWith (internal_name s) "V" = true) (all_signals_ d)) ∧
  current_signal_ d
    = head (filter (λ s, startsWith (internal_name s) "I" = true) (all_signals_ d)) ∧
  measurement_signal_ d
    = head (filter (λ s, internal_name s = "P1" ∨ internal_name s = "A1") (all_signals_ d)).

(** ** Example devices *)

Definition no_identity : sr_identity :=
  {| vendor := ""; model := ""; version := ""; serial_number := ""; connection_id := "" |}.

Definition analog_channel (p : nat) (name : string) : Channel :=
  {| ch_ptr := p; ch_type := SR_CHANNEL_ANALOG; ch_name := name |}.

(** A clock that stands still. *)
Definition clock0 : nat → Z := λ _, 0%Z.

(** A device whose driver announces none of the four device classes. *)
Definition unknown_sr : sr_device :=
  {| sr_identity_of := no_identity;
     sr_config_keys := [SR_CONF_ENABLED];
     sr_channels := [analog_channel 0 "V1"];
     sr_channel_groups := [] |}.

(** A demo device with a generic analog input ahead of a voltage channel. *)
Definition demo_sr : sr_device :=
  {| sr_identity_of := no_identity;
     sr_config_keys := [SR_CONF_DEMO_DEV];
     sr_channels := [analog_channel 0 "A1"; analog_channel 1 "V1"];
     sr_channel_groups := [] |}.

(** An electronic load and a power supply with two channels in one group. *)
Definition two_channels : list Channel :=
  [analog_channel 0 "V1"; analog_channel 1 "I1"].

Definition load_sr : sr_device :=
  {| sr_identity_of := no_identity;
     sr_config_keys := [SR_CONF_ELECTRONIC_LOAD; SR_CONF_ENABLED];
     sr_channels := two_channels;
     sr_channel_groups := [("1", {| cg_name := "1"; cg_channels := two_channels |})] |}.

Definition supply_sr : sr_device :=
  {| sr_identity_of := no_identity;
     sr_config_keys := [SR_CONF_POWER_SUPPLY; SR_CONF_ENABLED];
     sr_channels := two_channels;
     sr_channel_groups := [("1", {| cg_name := "1"; cg_channels := two_channels |})] |}.

(** ** Example sessions *)

(** A device that was never opened. *)
Definition closed_session : session :=
  {| device_open_ := false; aquisition_state_ := Stopped; out_of_memory_ := false;
     aquisition_thread_ := None; aborted := false; trace := [] |}.

(** A driver whose session fails to start. *)
Definition start_fails : driver :=
  {| sr_open := None; sr_start := Some "start failed"; sr_run_packets := [];
     sr_run := None |}.

(** A driver that cannot open the device. *)
Definition open_fails : driver :=
  {| sr_open := Some "open failed"; sr_start := None; sr_run_packets := [];
     sr_run := None |}.

(** A driver whose run loop delivers a data packet that exhausts the
    memory, then returns. *)
Definition run_out_of_memory : driver :=
  {| sr_open := None; sr_start := None;
     sr_run_packets := [DataPacket false; DataPacket true; OtherPacket];
     sr_run := None |}.

(** The same, with a run loop that raises in the end. *)
Definition run_out_of_memory_raises : driver :=
  {| sr_open := None; sr_start := None;
     sr_run_packets := [DataPacket false; DataPacket true; OtherPacket];
     sr_run := Some "run failed" |}.

(** The events of the datafeed callback for a list of packets. *)
Definition feed_events (packets : list packet) : list event :=
  packets ≫= λ _, [EvFeedEnter; EvFeedLeave].

(** Whether appending the samples of the packet runs out of memory. *)
Definition alloc_fails (p : packet) : bool :=
  match p with DataPacket b => b | OtherPacket => false end.

(** ** Display names *)

(** A [devices::HardwareDevice] as [DeviceManager::devices()] lists it: the
    pointer [sr_device_] (never null: the constructor and every method
    dereference it) and the identity that the driver serves for it. *)
Record hw_device := {
  hw_sr_device : nat;
  hw_identity : sr_identity;
}.

(** [boost::algorithm::join(parts, sep)] *)
Definition boost_join (parts : list string) (sep : string) : string :=
  String.concat sep parts.

(** The [any_of] of [display_name]: some listed device has the vendor and
    the model of this one and another [sr_device_]. *)
Definition multiple_dev (devices : list hw_device) (this : hw_device) : bool :=
  existsb
    (λ dev,
       String.eqb (vendor (hw_identity dev)) (vendor (hw_identity this))
       && String.eqb (model (hw_identity dev)) (model (hw_identity this))
       && negb (Nat.eqb (hw_sr_device dev) (hw_sr_device this)))
    devices.

(** [HardwareDevice::display_name(device_manager)] *)
Definition display_name (devices : list hw_device) (this : hw_device) : string :=
  let d := hw_identity this in
  let parts := [vendor d; model d] in
  let parts :=
    if multiple_dev devices this then
      let parts := parts ++ [version d] in
      let parts := parts ++ [serial_number d] in
      if Nat.eqb (String.length (serial_number d)) 0 && has_length (connection_id d)
      then parts ++ [String.append (String.append "(" (connection_id d)) ")"]
      else parts
    else parts in
  boost_join parts " ".

(** The number of non-empty strings among [l]. *)
Definition count_nonempty (l : list string) : nat :=
  length (List.filter has_length l).

#[global] Instance DeviceType_eq_dec : EqDecision DeviceType.
Proof. solve_decision. Defined.

(** The signals that the constructor collects for a channel group: for
    each channel of the group, in order, the signal that
    [sr_channel_signal_map_] holds for it, if any. *)
Definition cg_signals_of (d : HardwareDevice) (sr_cg : ChannelGroup) : list BaseSignal :=
  omap (λ sr_c, sr_channel_signal_map_ d !! ch_ptr sr_c) (cg_channels sr_cg).

Definition channel_group_name_signals_map (d : HardwareDevice)
  : gmap string (list BaseSignal) := channel_group_name_signals_map_ d.

(** A multimeter with a channel that the naming convention does not
    know, and a logic channel. *)
Definition meter_sr : sr_device :=
  {| sr_identity_of := no_identity;
     sr_config_keys := [SR_CONF_MULTIMETER];
     sr_channels :=
       [analog_channel 0 "P2";
        {| ch_ptr := 1; ch_type := SR_CHANNEL_LOGIC; ch_name := "D0" |}];
     sr_channel_groups := [] |}.

(** The values that a list of statements assigns to [aquisition_state_],
    in order. *)
Definition state_assignments (l : list step) : list aquisition_state :=
  omap (λ s, match s with SetState x => Some x | _ => None end) l.

(** The call of [error_handler] that is made outside the datafeed callback
    with message [msg], before or after the thread has assigned [Stopped]. *)
Definition handler_call_of (h : nat) (msg : string) (task_stopped : bool) : handler_call :=
  {| hc_handler := h; hc_msg := msg; hc_task_stopped := task_stopped;
     hc_in_feed := false |}.

(** The calls of [error_handler] that one acquisition makes, by what the
    driver does. *)
Definition expected_handler_calls (drv : driver) (h : nat) : list handler_call :=
  match sr_start drv with
  | Some e => [handler_call_of h e false]
  | None =>
      match sr_run drv with
      | Some e => [handler_call_of h e false]
      | None =>
          if existsb alloc_fails (sr_run_packets drv)
          then [handler_call_of h out_of_memory_message true]
          else []
      end
  end.

(** The events that one statement of the acquisition thread logs, and the
    out-of-memory flag that it leaves, given the flag that it finds. *)
Definition step_events (s : step) (oom : bool) : list event :=
  match s with
  | DriverCall c => [EvDriver c]
  | CallErrorHandler h msg => [EvErrorHandler h msg]
  | SetState x => [EvState Task x]
  | FeedIn _ => [EvFeedEnter; EvFeedLeave]
  | ReportOutOfMemory h => if oom then [EvErrorHandler h out_of_memory_message] else []
  | Assert _ | SetOutOfMemory _ | FreeUnusedMemory => []
  end.

Definition step_oom (s : step) (oom : bool) : bool :=
  match s with
  | SetOutOfMemory b => b
  | FeedIn p => oom || alloc_fails p
  | _ => oom
  end.

Fixpoint steps_events (l : list step) (oom : bool) : list event :=
  match l with
  | [] => []
  | s :: l' => step_events s oom ++ steps_events l' (step_oom s oom)
  end.

Definition steps_oom (l : list step) (oom : bool) : bool :=
  foldl (λ o s, step_oom s o) oom l.

(** ** The source/sink tab ([ui::tabs::SourceSinkTab])

    [SourceSinkTab::setup_ui] reads the configurables and the channel
    groups of the device and builds views. The Qt side is kept as the list
    of calls that the function makes, in order. *)
Module SourceSinkTab.

(** The members of [data::Quantity] that [setup_ui] tests; [Other] is
    any other quantity. *)
Inductive Quantity := Voltage | Current | Other.

#[global] Instance Quantity_eq_dec : EqDecision Quantity.
Proof. solve_decision. Defined.

(** A [data::AnalogTimeSignal] as far as [setup_ui] reads it. *)
Record AnalogTimeSignal := {
  name : string;
  quantity : Quantity;
}.

(** A [channels::BaseChannel]: [fixed_signal()] and [actual_signal()]
    (read only when the signal is fixed; it is not null then). *)
Record BaseChannel := {
  fixed_signal : bool;
  actual_signal : AnalogTimeSignal;
}.

(** A [devices::Configurable] of [configurable_map()]:
    [is_controllable()], and the view that
    [viewhelper::get_view_for_configurable] returns for it ([None] is
    [nullptr]). *)
Record Configurable := {
  is_controllable : bool;
  view_for_configurable : option nat;
}.

Inductive DockWidgetArea := TopDockWidgetArea | BottomDockWidgetArea.

(** The views: the one of a configurable, and the plot view and the
    power panel that [setup_ui] creates for a channel group (at most one
    of each per group). *)
Inductive View :=
  | ConfigurableView (id : nat)
  | PlotView (group : string)
  | PowerPanelView (group : string).

(** The calls that [setup_ui] makes. *)
Inductive action :=
  | new_PlotView (group : string) (signal : AnalogTimeSignal)
  | add_time_curve (plot_view : View) (signal : AnalogTimeSignal)
  | new_PowerPanelView (group : string) (voltage_signal current_signal : AnalogTimeSignal)
  | add_view (view : View) (area : DockWidgetArea)
  | add_view_ontop (view existing : View)
  | show (view : View)
  | raise (view : View).

(** The body of the loop over [configurable_map()]; the state is
    [first_conf_view] and the calls so far. *)
Definition configurable_step (acc : option View * list action)
    (c_pair : string * Configurable) : option View * list action :=
  let '(first_conf_view, calls) := acc in
  let configurable := c_pair.2 in
  if negb (is_controllable configurable) then acc else
  match view_for_configurable configurable with
  | Some id =>
      let configurable_view := ConfigurableView id in
      match first_conf_view with
      | None =>
          (Some configurable_view,
           calls ++ [add_view configurable_view TopDockWidgetArea])
      | Some first => (first_conf_view, calls ++ [add_view_ontop configurable_view first])
      end
  | None => acc
  end.

(** [if (first != nullptr && map.size() > 1) { first->show(); first->raise(); }] *)
Definition show_first (first : option View) (size : nat) (calls : list action)
  : list action :=
  match first with
  | Some view => if Nat.ltb 1 size then calls ++ [show view; raise view] else calls
  | None => calls
  end.

(** The plot of one signal: a new plot view, docked at the bottom, when
    the group has none yet; one more curve otherwise. *)
Definition plot (group : string) (signal : AnalogTimeSignal)
    (plot_view : option View) (calls : list action) : option View * list action :=
  match plot_view with
  | None =>
      (Some (PlotView group),
       calls ++ [new_PlotView group signal;
                 add_view (PlotView group) BottomDockWidgetArea])
  | Some pv => (plot_view, calls ++ [add_time_curve pv signal])
  end.

(** The body of the loop over the channels of one group; the state is
    [plot_view], [voltage_signal], [current_signal] and the calls. *)
Definition channel_step (group : string)
    (acc : option View * option AnalogTimeSignal * option AnalogTimeSignal * list action)
    (channel : BaseChannel)
  : option View * option AnalogTimeSignal * option AnalogTimeSignal * list action :=
  if fixed_signal channel then
    let signal := actual_signal channel in
    let '(plot_view, voltage_signal, current_signal, calls) := acc in
    let '(plot_view, voltage_signal, calls) :=
      if bool_decide (quantity signal = Voltage)
      then let '(pv, calls) := plot group signal plot_view calls in
           (pv, Some signal, calls)
      else (plot_view, voltage_signal, calls) in
    let '(plot_view, current_signal, calls) :=
      if bool_decide (quantity signal = Current)
      then let '(pv, calls) := plot group signal plot_view calls in
           (pv, Some signal, calls)
      else (plot_view, current_signal, calls) in
    (plot_view, voltage_signal, current_signal, calls)
  else acc.

(** The body of the loop over [channel_group_map()]; the state is
    [first_pp_view] and the calls. *)
Definition group_step (acc : option View * list action)
    (chg_pair : string * list BaseChannel) : option View * list action :=
  let '(first_pp_view, calls) := acc in
  let '(_, voltage_signal, current_signal, calls) :=
    foldl (channel_step chg_pair.1) (None, None, None, calls) chg_pair.2 in
  match voltage_signal, current_signal with
  | Some v, Some c =>
      let power_panel_view := PowerPanelView chg_pair.1 in
      let calls := calls ++ [new_PowerPanelView chg_pair.1 v c] in
      match first_pp_view with
      | None =>
          (Some power_panel_view, calls ++ [add_view power_panel_view TopDockWidgetArea])
      | Some first => (first_pp_view, calls ++ [add_view_ontop power_panel_view first])
      end
  | _, _ => (first_pp_view, calls)
  end.

(** [SourceSinkTab::setup_ui], for the entries of [configurable_map()]
    and of [channel_group_map()] in the order of the maps. *)
Definition setup_ui (configurable_map : list (string * Configurable))
    (channel_group_map : list (string * list BaseChannel)) : list action :=
  let '(first_conf_view, calls) := foldl configurable_step (None, []) configurable_map in
  let calls := show_first first_conf_view (length configurable_map) calls in
  let '(first_pp_view, calls) := foldl group_step (None, calls) channel_group_map in
  show_first first_pp_view (length channel_group_map) calls.

(** The fixed signals of quantity [q] among the channels of a group. *)
Definition fixed_signals (q : Quantity) (channels : list BaseChannel)
  : list AnalogTimeSignal :=
  actual_signal
    <$> filter (λ ch, fixed_signal ch = true ∧ quantity (actual_signal ch) = q) channels.

(** The fixed voltage and current signals of a group, in the order of
    its channels. *)
Definition plotted_signals (channels : list BaseChannel) : list AnalogTimeSignal :=
  actual_signal
    <$> filter (λ ch, fixed_signal ch = true
                      ∧ (quantity (actual_signal ch) = Voltage
                         ∨ quantity (actual_signal ch) = Current)) channels.

(** The power panels among the calls: group, voltage and current signal. *)
Definition power_panels (calls : list action)
  : list (string * AnalogTimeSignal * AnalogTimeSignal) :=
  omap (λ a, match a with
             | new_PowerPanelView g v c => Some (g, v, c)
             | _ => None
             end) calls.

(** The curves among the calls: the plot view and the signal plotted. *)
Definition curves (calls : list action) : list (View * AnalogTimeSignal) :=
  omap (λ a, match a with
             | new_PlotView g s => Some (PlotView g, s)
             | add_time_curve pv s => Some (pv, s)
             | _ => None
             end) calls.

(** The views of the configurables that get one: those of the
    controllable configurables for which the view helper has a view. *)
Definition configurable_views (configurable_map : list (string * Configurable))
  : list View :=
  omap (λ c_pair : string * Configurable,
          if is_controllable c_pair.2
          then ConfigurableView <$> view_for_configurable c_pair.2
          else None) configurable_map.

(** Docking a list of views when [first] is the first view so far: the
    first view of all goes to the top area, every other one on top of it. *)
Definition dock (first : option View) (views : list View) : list action :=
  match first with
  | Some f => (λ v, add_view_ontop v f) <$> views
  | None =>
      match views with
      | [] => []
      | v :: others =>
          add_view v TopDockWidgetArea :: ((λ w, add_view_ontop w v) <$> others)
      end
  end.

(** The power panel of a group, if it gets one: built from the last
    fixed voltage signal and the last fixed current signal. *)
Definition power_panel_of (chg_pair : string * list BaseChannel)
  : list (string * AnalogTimeSignal * AnalogTimeSignal) :=
  match last (fixed_signals Voltage chg_pair.2),
        last (fixed_signals Current chg_pair.2) with
  | Some v, Some c => [(chg_pair.1, v, c)]
  | _, _ => []
  end.

End SourceSinkTab.

(** ** Theorems *)

(** C9, at the failing input: for vendor "Vendor" and model "Model" (the
    other identity fields empty) [full_name] puts no space between the two
    fields and leaves a trailing space, where the specified name is
    "Vendor Model". *)
Theorem full_name_vendor_model :
  let d := {| vendor := "Vendor"; model := "Model"; version := "";
              serial_number := ""; connection_id := "" |} in
  full_name d = "VendorModel " ∧ full_name_spec d = "Vendor Model".
Proof. split; reflexivity. Qed.

(** ** The constructor: invariants of the signal loop *)

Lemma startsWith_head (s : string) (c : Ascii.ascii) :
  startsWith s (String c EmptyString) = true ↔ ∃ s', s = String c s'.
Proof.
  destruct s as [|d s']; simpl.
  - split; [discriminate | intros [? ?]; discriminate].
  - destruct (Ascii.eqb_spec d c) as [->|Hne].
    + split; [eauto | done].
    + split; [discriminate | intros [? [= ? ?]]; contradiction].
Qed.

(** What [init_signal] does to the device, case by case. *)
Lemma init_signal_cases clock ch common fixed_mq d r :
  init_signal clock ch common fixed_mq d = Some r →
  (ch_type ch = SR_CHANNEL_LOGIC ∧ r = (None, d)) ∨
  (ch_type ch = SR_CHANNEL_ANALOG ∧
   ∃ s heap,
     r.1 = Some s ∧
     sig_sr_channel s = ch ∧
     sig_fixed_mq s = fixed_mq ∧
     sig_data s = Some (length heap) ∧
     match common with
     | Some a => sig_time_data s = Some a ∧ heap = analog_heap d
     | None => sig_time_data s = Some (length (analog_heap d)) ∧
               heap = analog_heap d ++ [init_time_data]
     end ∧
     analog_heap r.2 = heap ++ [init_signal_data (ch_name ch) fixed_mq new_AnalogData] ∧
     all_signals_ r.2 = all_signals_ d ++ [s] ∧
     (voltage_signal_ r.2, current_signal_ r.2, measurement_signal_ r.2) =
       init_signal_canonical s (voltage_signal_ d, current_signal_ d, measurement_signal_ d) ∧
     type_ r.2 = type_ d ∧
     configurables_ r.2 = configurables_ d).
Proof.
  unfold init_signal. destruct (ch_type ch) eqn:Hty.
  - intros [= <-]. by left.
  - intros Hr. right. split; [done|].
    destruct common as [a|]; cbv beta iota zeta in Hr;
      destruct (init_signal_canonical _ _) as [[v c] m] eqn:Hcan;
      injection Hr as <-;
      eexists _, _; repeat split; first [reflexivity | exact (eq_sym Hcan)].
  - discriminate.
Qed.

(** Induction over the constructor's channel loop. *)
Lemma init_signals_ind clock common fixed_mq (P : HardwareDevice → Prop) :
  (∀ d ch r, P d → init_signal clock ch common fixed_mq d = Some r → P r.2) →
  ∀ chs d d', P d → init_signals clock chs common fixed_mq d = Some d' → P d'.
Proof.
  intros Hstep. induction chs as [|ch chs IH]; simpl; intros d d' Hd Hrun.
  - by injection Hrun as <-.
  - destruct (init_signal clock ch common fixed_mq d) as [r|] eqn:Hr; [|done].
    simpl in Hrun. eapply IH; [|exact Hrun]. eapply Hstep; eauto.
Qed.

Lemma init_signal_data_not_time name fixed_mq :
  ad_quantity (init_signal_data name fixed_mq new_AnalogData) ≠ Some TIME.
Proof. unfold init_signal_data. repeat case_match; simpl; congruence. Qed.

Lemma time_buffers_snoc_time heap :
  filter (λ a, ad_quantity a = Some TIME) (heap ++ [init_time_data])
  = filter (λ a, ad_quantity a = Some TIME) heap ++ [init_time_data].
Proof. rewrite filter_app. f_equal. Qed.

Lemma time_buffers_snoc_data heap name fixed_mq :
  filter (λ a, ad_quantity a = Some TIME)
    (heap ++ [init_signal_data name fixed_mq new_AnalogData])
  = filter (λ a, ad_quantity a = Some TIME) heap.
Proof.
  rewrite filter_app, filter_cons_False, filter_nil, app_nil_r;
    [done | apply init_signal_data_not_time].
Qed.

Lemma init_signals_buffers_ok clock common fixed_mq chs d d' :
  buffers_ok common fixed_mq d →
  init_signals clock chs common fixed_mq d = Some d' →
  buffers_ok common fixed_mq d'.
Proof.
  apply init_signals_ind. clear. intros d ch r [Hc Hs] Hr.
  apply init_signal_cases in Hr as [[_ ->]|[_ (s & heap & _ & Hch & Hmq & Hdata & Htime & Hheap & Hall & _)]];
    [done|].
  assert (Hgrow : ∀ i x, analog_heap d !! i = Some x → analog_heap r.2 !! i = Some x).
  { intros i x Hi. rewrite Hheap. apply lookup_app_l_Some.
    destruct common; destruct Htime as [_ ->]; [done | by apply lookup_app_l_Some]. }
  split; [by eauto|].
  intros s' Hin. rewrite Hall in Hin. apply elem_of_app in Hin as [Hin|Hin].
  - destruct (Hs s' Hin) as (? & a & t & ? & ? & ? & ? & ?).
    split; [done|]. exists a, t. eauto 10.
  - apply list_elem_of_singleton in Hin as ->. split; [done|].
    exists (length heap). unfold internal_name. rewrite Hch, Hheap.
    destruct common as [c|]; destruct Htime as [Ht ->].
    + exists c. repeat split; [done | by apply list_lookup_middle | done | |congruence].
      apply lookup_app_l_Some; eauto.
    + exists (length (analog_heap d)).
      repeat split; [done | by apply list_lookup_middle | done | | done].
      apply lookup_app_l_Some. by apply list_lookup_middle.
Qed.

Lemma init_signals_private_time_ok clock fixed_mq chs d d' :
  private_time_ok d →
  init_signals clock chs None fixed_mq d = Some d' →
  private_time_ok d'.
Proof.
  apply init_signals_ind. clear. intros d ch r (Hnd & Hlen & Hlt) Hr.
  apply init_signal_cases in Hr
    as [[_ ->]|[_ (s & heap & _ & _ & _ & _ & [Htime ->] & Hheap & Hall & _)]]; [done|].
  unfold private_time_ok, time_buffers. rewrite Hall, Hheap, fmap_app.
  rewrite time_buffers_snoc_data, time_buffers_snoc_time, !length_app. simpl.
  split; [|split].
  - apply NoDup_app. split; [done|]. split; [|apply NoDup_singleton].
    intros x Hx Hx'. apply list_elem_of_singleton in Hx' as ->.
    apply list_elem_of_fmap in Hx as (s' & Heq & Hin).
    destruct (Hlt s' Hin) as (t & Ht & Hlt'). rewrite Htime, Ht in Heq.
    injection Heq as Heq. lia.
  - unfold time_buffers in Hlen. lia.
  - intros s' Hin. apply elem_of_app in Hin as [Hin|Hin].
    + destruct (Hlt s' Hin) as (t & Ht & Hlt'). exists t. split; [done|lia].
    + apply list_elem_of_singleton in Hin as ->. eexists. split; [done|lia].
Qed.

Lemma init_signals_shared_time clock c fixed_mq chs d d' :
  init_signals clock chs (Some c) fixed_mq d = Some d' →
  time_buffers d' = time_buffers d.
Proof.
  intros Hrun.
  refine (init_signals_ind clock (Some c) fixed_mq
            (λ x, time_buffers x = time_buffers d) _ chs d d' eq_refl Hrun).
  clear. intros d0 ch r Hd Hr.
  apply init_signal_cases in Hr
    as [[_ ->]|[_ (s & heap & _ & _ & _ & _ & [_ ->] & Hheap & _)]]; [done|].
  unfold time_buffers in *. by rewrite Hheap, time_buffers_snoc_data.
Qed.

(** One signal per analog channel, in the order of the channels. *)
Lemma init_signals_channels clock common fixed_mq chs d d' :
  init_signals clock chs common fixed_mq d = Some d' →
  sig_sr_channel <$> all_signals_ d'
  = (sig_sr_channel <$> all_signals_ d)
    ++ filter (λ c, ch_type c = SR_CHANNEL_ANALOG) chs.
Proof.
  revert d. induction chs as [|ch chs IH]; simpl; intros d Hrun.
  - injection Hrun as <-. by rewrite filter_nil, app_nil_r.
  - destruct (init_signal clock ch common fixed_mq d) as [r|] eqn:Hr; [|done].
    simpl in Hrun. rewrite (IH _ Hrun).
    apply init_signal_cases in Hr
      as [[Hty ->]|[Hty (s & heap & _ & Hch & _ & _ & _ & _ & Hall & _)]].
    + rewrite filter_cons_False; [done | congruence].
    + rewrite filter_cons_True by done. rewrite Hall, fmap_app. simpl.
      by rewrite Hch, <- app_assoc.
Qed.

(** The device type and the configurables are left alone by the loop. *)
Lemma init_signals_type clock common fixed_mq chs d d' :
  init_signals clock chs common fixed_mq d = Some d' →
  type_ d' = type_ d ∧ configurables_ d' = configurables_ d.
Proof.
  intros Hrun.
  refine (init_signals_ind clock common fixed_mq
            (λ x, type_ x = type_ d ∧ configurables_ x = configurables_ d)
            _ chs d d' (conj eq_refl eq_refl) Hrun).
  clear. intros d0 ch r [Hty Hcf] Hr.
  apply init_signal_cases in Hr
    as [[_ ->]|[_ (s & heap & _ & _ & _ & _ & _ & _ & _ & _ & Hty' & Hcf')]]; [done|].
  split; congruence.
Qed.

Lemma name_exclusive (n : string) :
  (startsWith n "V" = true → startsWith n "I" = false ∧ n ≠ "P1" ∧ n ≠ "A1") ∧
  (startsWith n "I" = true → n ≠ "P1" ∧ n ≠ "A1").
Proof.
  split; intros H; apply startsWith_head in H as [n' ->]; repeat split; done.
Qed.

Lemma head_filter_snoc {A} (P : A → Prop) `{∀ x, Decision (P x)} (l : list A) (x : A) :
  head (filter P (l ++ [x]))
  = match head (filter P l) with
    | Some y => Some y
    | None => if decide (P x) then Some x else None
    end.
Proof.
  rewrite filter_app. destruct (filter P l); [|done].
  rewrite app_nil_l, filter_cons, filter_nil. by destruct (decide (P x)).
Qed.

Lemma init_signal_canonical_snoc l s :
  init_signal_canonical s
    (head (filter (λ s, startsWith (internal_name s) "V" = true) l),
     head (filter (λ s, startsWith (internal_name s) "I" = true) l),
     head (filter (λ s, internal_name s = "P1" ∨ internal_name s = "A1") l))
  = (head (filter (λ s, startsWith (internal_name s) "V" = true) (l ++ [s])),
     head (filter (λ s, startsWith (internal_name s) "I" = true) (l ++ [s])),
     head (filter (λ s, internal_name s = "P1" ∨ internal_name s = "A1") (l ++ [s]))).
Proof.
  rewrite !head_filter_snoc. unfold init_signal_canonical.
  destruct (name_exclusive (internal_name s)) as [HV HI].
  destruct (String.eqb_spec (internal_name s) "P1") as [HP|HP];
  destruct (String.eqb_spec (internal_name s) "A1") as [HA|HA];
  destruct (startsWith (internal_name s) "V") eqn:EV;
  destruct (startsWith (internal_name s) "I") eqn:EI;
  try (destruct (HV eq_refl) as (? & ? & ?); congruence);
  try (destruct (HI eq_refl) as (? & ?); congruence);
  try congruence.
  all: destruct (head (filter (λ s, startsWith (internal_name s) "V" = true) l));
    destruct (head (filter (λ s, startsWith (internal_name s) "I" = true) l));
    destruct (head (filter (λ s, internal_name s = "P1" ∨ internal_name s = "A1") l));
    simpl; repeat case_decide; try done; try tauto.
Qed.

Lemma init_signals_canonical_ok clock common fixed_mq chs d d' :
  canonical_ok d →
  init_signals clock chs common fixed_mq d = Some d' →
  canonical_ok d'.
Proof.
  apply init_signals_ind. clear. intros d ch r (Hv & Hc & Hm) Hr.
  apply init_signal_cases in Hr
    as [[_ ->]|[_ (s & heap & _ & _ & _ & _ & _ & _ & Hall & Hcan & _)]]; [done|].
  rewrite Hv, Hc, Hm, init_signal_canonical_snoc in Hcan.
  unfold canonical_ok. rewrite Hall. by injection Hcan as -> -> ->.
Qed.

(** The channel-group part of the constructor touches the configurables
    and the two group maps only. *)
Lemma init_configurables_fields groups d :
  type_ (init_configurables groups d) = type_ d ∧
  analog_heap (init_configurables groups d) = analog_heap d ∧
  all_signals_ (init_configurables groups d) = all_signals_ d ∧
  voltage_signal_ (init_configurables groups d) = voltage_signal_ d ∧
  current_signal_ (init_configurables groups d) = current_signal_ d ∧
  measurement_signal_ (init_configurables groups d) = measurement_signal_ d.
Proof.
  unfold init_configurables. destruct (negb _); [|done].
  revert d. induction groups as [|g groups IH]; intros d; [done|].
  simpl. destruct (IH (add_channel_group d g)) as (-> & -> & -> & -> & -> & ->). done.
Qed.

Lemma init_configurables_configurables groups d :
  configurables_ (init_configurables groups d)
  = configurables_ d
    ++ match groups with
       | [] => [ConfigurableOfDevice]
       | _ => (λ g, ConfigurableOfGroup g.2) <$> groups
       end.
Proof.
  unfold init_configurables. destruct groups as [|g0 groups0]; [done|].
  change (negb _) with true. cbv iota.
  generalize (g0 :: groups0). intros groups. revert d.
  induction groups as [|g groups IH]; intros d; simpl.
  - by rewrite app_nil_r.
  - rewrite IH. simpl. by rewrite <- app_assoc.
Qed.

(** The constructor, taken apart. *)
Lemma HardwareDevice_new_inv clock sr d :
  HardwareDevice_new clock sr = Some d →
  ∃ type common fixed_mq heap d1,
    device_options (sr_config_keys sr) = Some (type, common, fixed_mq, heap) ∧
    init_signals clock (sr_channels sr) common fixed_mq
      {| type_ := type; analog_heap := heap; all_signals_ := [];
         signal_name_map_ := ∅; sr_channel_signal_map_ := ∅;
         voltage_signal_ := None; current_signal_ := None;
         measurement_signal_ := None; configurables_ := [];
         sr_channel_group_name_map_ := ∅;
         channel_group_name_signals_map_ := ∅ |} = Some d1 ∧
    d = init_configurables (sr_channel_groups sr) d1.
Proof.
  unfold HardwareDevice_new. intros Hnew.
  destruct (device_options (sr_config_keys sr)) as [[[[type common] fixed_mq] heap]|];
    [|done].
  simpl in Hnew.
  destruct (init_signals _ _ _ _ _) as [d1|] eqn:Hd1; [|done].
  injection Hnew as <-. by eexists _, _, _, _, _.
Qed.

(** The policy table of the constructor. *)
Lemma device_options_cases keys type common fixed_mq heap :
  device_options keys = Some (type, common, fixed_mq, heap) →
  (type = ELECTRONIC_LOAD ∧ common = Some 0 ∧ heap = [init_time_data] ∧ fixed_mq = true) ∨
  (type ≠ ELECTRONIC_LOAD ∧ common = None ∧ heap = []).
Proof.
  unfold device_options. repeat case_match; simpl; intros [= <- <- <- <-]; auto.
Qed.

(** ** The constructor: the claims *)

Lemma init_signal_data_by_name name fixed_mq :
  let a := init_signal_data name fixed_mq new_AnalogData in
  (startsWith name "V" = true → ad_quantity a = Some VOLTAGE ∧ ad_unit a = Some VOLT) ∧
  (startsWith name "I" = true → ad_quantity a = Some CURRENT ∧ ad_unit a = Some AMPERE) ∧
  (startsWith name "F" = true → ad_quantity a = Some FREQUENCY ∧ ad_unit a = Some HERTZ) ∧
  (name = "P1" → ad_quantity a = None ∧ ad_unit a = None) ∧
  (startsWith name "A" = true → ad_quantity a = Some VOLTAGE ∧ ad_unit a = Some VOLT).
Proof.
  cbv zeta. split; [|split; [|split; [|split]]]; intros Hname;
    first [apply startsWith_head in Hname as [n' ->] | subst name];
    split; reflexivity.
Qed.

(** A constructed device satisfies the invariants of the signal loop. *)
Lemma HardwareDevice_new_ok clock sr d :
  HardwareDevice_new clock sr = Some d →
  ∃ common fixed_mq,
    buffers_ok common fixed_mq d ∧ canonical_ok d ∧
    sig_sr_channel <$> all_signals_ d = analog_channels sr ∧
    (type_ d = ELECTRONIC_LOAD → is_Some common ∧ length (time_buffers d) = 1) ∧
    (type_ d ≠ ELECTRONIC_LOAD → common = None ∧ private_time_ok d).
Proof.
  intros Hnew.
  apply HardwareDevice_new_inv in Hnew
    as (type & common & fixed_mq & heap & d1 & Hopt & Hrun & ->).
  destruct (init_configurables_fields (sr_channel_groups sr) d1)
    as (Hty & Hheap & Hall & Hv & Hc & Hm).
  unfold buffers_ok, canonical_ok, private_time_ok, time_buffers, all_signals.
  rewrite Hty, Hheap, Hall, Hv, Hc, Hm.
  destruct (init_signals_type _ _ _ _ _ _ Hrun) as [Hty1 _]. simpl in Hty1.
  exists common, fixed_mq. split; [|split; [|split; [|split]]].
  - eapply init_signals_buffers_ok; [|exact Hrun]. split; [|by intros ? ?%elem_of_nil].
    simpl. intros c ->.
    by apply device_options_cases in Hopt as [(_ & [= ->] & -> & _)|(_ & [=] & _)].
  - eapply init_signals_canonical_ok; [|exact Hrun]. done.
  - by rewrite (init_signals_channels _ _ _ _ _ _ Hrun).
  - intros Hty2. apply device_options_cases in Hopt as [(_ & -> & -> & _)|(? & _)];
      [|congruence].
    split; [done|]. pose proof (init_signals_shared_time _ _ _ _ _ _ Hrun) as Hs.
    unfold time_buffers in Hs. by rewrite Hs.
  - intros Hty2. apply device_options_cases in Hopt as [(? & _)|(_ & -> & ->)];
      [congruence|].
    split; [done|]. eapply init_signals_private_time_ok; [|exact Hrun].
    repeat split; [constructor | by intros ? ?%elem_of_nil].
Qed.

(** C5: for every analog channel the constructor creates one signal, named
    after the channel, and the quantity and unit of the signal follow from
    that name: prefix "V" gives Voltage/Volt, "I" Current/Ampere, "F"
    Frequency/Hertz, the exact name "P1" leaves quantity and unit unset,
    prefix "A" gives Voltage/Volt. *)
Theorem signal_quantity_unit_by_name clock sr d :
  HardwareDevice_new clock sr = Some d →
  sig_sr_channel <$> all_signals d = analog_channels sr ∧
  ∀ s, s ∈ all_signals d →
    let name := internal_name s in
    (startsWith name "V" = true →
       signal_quantity d s = Some VOLTAGE ∧ signal_unit d s = Some VOLT) ∧
    (startsWith name "I" = true →
       signal_quantity d s = Some CURRENT ∧ signal_unit d s = Some AMPERE) ∧
    (startsWith name "F" = true →
       signal_quantity d s = Some FREQUENCY ∧ signal_unit d s = Some HERTZ) ∧
    (name = "P1" → signal_quantity d s = None ∧ signal_unit d s = None) ∧
    (startsWith name "A" = true →
       signal_quantity d s = Some VOLTAGE ∧ signal_unit d s = Some VOLT).
Proof.
  intros Hnew.
  destruct (HardwareDevice_new_ok _ _ _ Hnew) as (common & fixed_mq & [_ Hbuf] & _ & Hch & _).
  split; [done|]. intros s Hin.
  destruct (Hbuf s Hin) as (_ & a & t & Ha & Hheap & _).
  unfold signal_quantity, signal_unit. rewrite Ha. simpl. rewrite Hheap. simpl.
  apply init_signal_data_by_name.
Qed.

Lemma signal_quantity_unit_by_name_witness :
  ∃ d, HardwareDevice_new clock0 load_sr = Some d ∧
       sig_sr_channel <$> all_signals d = analog_channels load_sr ∧
       ∀ s, s ∈ all_signals d →
         let name := internal_name s in
         (startsWith name "V" = true →
            signal_quantity d s = Some VOLTAGE ∧ signal_unit d s = Some VOLT) ∧
         (startsWith name "I" = true →
            signal_quantity d s = Some CURRENT ∧ signal_unit d s = Some AMPERE) ∧
         (startsWith name "F" = true →
            signal_quantity d s = Some FREQUENCY ∧ signal_unit d s = Some HERTZ) ∧
         (name = "P1" → signal_quantity d s = None ∧ signal_unit d s = None) ∧
         (startsWith name "A" = true →
            signal_quantity d s = Some VOLTAGE ∧ signal_unit d s = Some VOLT).
Proof.
  destruct (HardwareDevice_new clock0 load_sr) as [d|] eqn:Hnew.
  - exists d. split; [reflexivity|].
    exact (signal_quantity_unit_by_name clock0 load_sr d Hnew).
  - vm_compute in Hnew. discriminate Hnew.
Defined.

Lemma filter_ext_in {A} (P Q : A → Prop) `{∀ x, Decision (P x), ∀ x, Decision (Q x)}
    (l : list A) :
  (∀ x, x ∈ l → P x ↔ Q x) → filter P l = filter Q l.
Proof.
  induction l as [|x l IH]; intros Hext; [done|].
  rewrite !filter_cons, IH by (intros; apply Hext; by right).
  destruct (decide (P x)) as [HP|HP], (decide (Q x)) as [HQ|HQ]; try done;
    exfalso; pose proof (Hext x (list_elem_of_here x l)); tauto.
Qed.

Lemma init_signal_data_current name fixed_mq :
  ad_quantity (init_signal_data name fixed_mq new_AnalogData) = Some CURRENT
  ↔ startsWith name "I" = true.
Proof.
  split; [|intros Hname; by apply init_signal_data_by_name].
  unfold init_signal_data.
  destruct (startsWith name "V"), (startsWith name "I"), (startsWith name "F"),
    (String.eqb name "P1"), (startsWith name "A"); simpl; congruence.
Qed.

(** C3, as the code has it: [voltage_signal()] is the first signal created
    whose internal name starts with "V" (a Voltage signal of an "A" channel
    is not a candidate), [current_signal()] the first signal of quantity
    Current, [measurement_signal()] the first signal named "P1" or "A1";
    being the first of the creation order, none is overridden by a later
    signal or moved by signals of other names. *)
Theorem canonical_signals_first clock sr d :
  HardwareDevice_new clock sr = Some d →
  voltage_signal d = first_signal (λ s, startsWith (internal_name s) "V" = true) d ∧
  current_signal d = first_signal (λ s, signal_quantity d s = Some CURRENT) d ∧
  measurement_signal d
    = first_signal (λ s, internal_name s = "P1" ∨ internal_name s = "A1") d.
Proof.
  intros Hnew.
  destruct (HardwareDevice_new_ok _ _ _ Hnew)
    as (common & fixed_mq & [_ Hbuf] & (Hv & Hc & Hm) & _).
  unfold voltage_signal, current_signal, measurement_signal, first_signal, all_signals.
  split; [done|]. split; [|done].
  rewrite Hc. f_equal. apply filter_ext_in. intros s Hin.
  destruct (Hbuf s Hin) as (_ & a & t & Ha & Hheap & _).
  unfold signal_quantity. rewrite Ha. simpl. rewrite Hheap.
  symmetry. apply init_signal_data_current.
Qed.

Lemma canonical_signals_first_witness :
  ∃ d, HardwareDevice_new clock0 demo_sr = Some d ∧
       voltage_signal d = first_signal (λ s, startsWith (internal_name s) "V" = true) d ∧
       current_signal d = first_signal (λ s, signal_quantity d s = Some CURRENT) d ∧
       measurement_signal d
         = first_signal (λ s, internal_name s = "P1" ∨ internal_name s = "A1") d.
Proof.
  destruct (HardwareDevice_new clock0 demo_sr) as [d|] eqn:Hnew.
  - exists d. split; [reflexivity|].
    exact (canonical_signals_first clock0 demo_sr d Hnew).
  - vm_compute in Hnew. discriminate Hnew.
Defined.

(** C3 as stated fails: on a demo device with the channels "A1", "V1" (in
    this order) the first signal of quantity Voltage is the one of "A1",
    and [voltage_signal()] is the one of "V1". *)
Lemma voltage_signal_not_first_voltage :
  ∃ d, HardwareDevice_new clock0 demo_sr = Some d ∧
       internal_name <$> first_signal (λ s, signal_quantity d s = Some VOLTAGE) d = Some "A1" ∧
       internal_name <$> voltage_signal d = Some "V1" ∧
       voltage_signal d ≠ first_signal (λ s, signal_quantity d s = Some VOLTAGE) d.
Proof.
  eexists. split; [vm_compute; reflexivity|].
  split; [reflexivity|]. split; [reflexivity|]. vm_compute. discriminate.
Qed.

(** C4: an electronic load with N analog channels has exactly one time
    buffer, and each of its N signals refers to that buffer; a power supply
    with N analog channels has N time buffers, and its N signals refer to
    pairwise distinct ones. The choice is the constructor's, by the device
    type alone. *)
Theorem time_buffers_by_device_type clock sr d :
  HardwareDevice_new clock sr = Some d →
  length (all_signals d) = length (analog_channels sr) ∧
  (type_ d = ELECTRONIC_LOAD →
     length (time_buffers d) = 1 ∧
     ∃ t, analog_heap d !! t = Some init_time_data ∧
          ∀ s, s ∈ all_signals d → sig_time_data s = Some t) ∧
  (type_ d = POWER_SUPPLY →
     length (time_buffers d) = length (analog_channels sr) ∧
     NoDup (sig_time_data <$> all_signals d) ∧
     ∀ s, s ∈ all_signals d →
       ∃ t, sig_time_data s = Some t ∧ analog_heap d !! t = Some init_time_data).
Proof.
  intros Hnew.
  destruct (HardwareDevice_new_ok _ _ _ Hnew)
    as (common & fixed_mq & [Hcommon Hbuf] & _ & Hch & Hload & Hother).
  assert (Hlen : length (all_signals d) = length (analog_channels sr)).
  { unfold all_signals. by rewrite <- Hch, length_fmap. }
  split; [done|]. split.
  - intros Hty. destruct (Hload Hty) as [[t ->] Hone]. split; [done|].
    exists t. split; [by apply Hcommon|].
    intros s Hin. destruct (Hbuf s Hin) as (_ & a & t' & _ & _ & Ht' & _ & Heq).
    by rewrite Ht', (Heq t eq_refl).
  - intros Hty. destruct Hother as [_ (Hnd & Hcount & _)]; [congruence|].
    split; [unfold all_signals in *; congruence|]. split; [done|].
    intros s Hin. destruct (Hbuf s Hin) as (_ & a & t & _ & _ & Ht & Hheap & _).
    by exists t.
Qed.

Lemma time_buffers_by_device_type_witness :
  (∃ d, HardwareDevice_new clock0 load_sr = Some d ∧
        type_ d = ELECTRONIC_LOAD ∧
        length (all_signals d) = 2 ∧
        length (time_buffers d) = 1 ∧
        ∃ t, analog_heap d !! t = Some init_time_data ∧
             ∀ s, s ∈ all_signals d → sig_time_data s = Some t) ∧
  (∃ d, HardwareDevice_new clock0 supply_sr = Some d ∧
        type_ d = POWER_SUPPLY ∧
        length (all_signals d) = 2 ∧
        length (time_buffers d) = 2 ∧
        NoDup (sig_time_data <$> all_signals d) ∧
        ∀ s, s ∈ all_signals d →
          ∃ t, sig_time_data s = Some t ∧ analog_heap d !! t = Some init_time_data).
Proof.
  split.
  - destruct (HardwareDevice_new clock0 load_sr) as [d|] eqn:Hnew.
    + destruct (time_buffers_by_device_type clock0 load_sr d Hnew)
        as (Hlen & Hload & _).
      assert (Hty : type_ d = ELECTRONIC_LOAD).
      { vm_compute in Hnew. injection Hnew as <-. reflexivity. }
      exists d. split; [reflexivity|]. split; [exact Hty|].
      split; [exact Hlen|]. exact (Hload Hty).
    + vm_compute in Hnew. discriminate Hnew.
  - destruct (HardwareDevice_new clock0 supply_sr) as [d|] eqn:Hnew.
    + destruct (time_buffers_by_device_type clock0 supply_sr d Hnew)
        as (Hlen & _ & Hsupply).
      assert (Hty : type_ d = POWER_SUPPLY).
      { vm_compute in Hnew. injection Hnew as <-. reflexivity. }
      exists d. split; [reflexivity|]. split; [exact Hty|].
      split; [exact Hlen|]. exact (Hsupply Hty).
    + vm_compute in Hnew. discriminate Hnew.
Defined.

Example load_shares_time_buffer :
  (λ d, (type_ d, sig_time_data <$> all_signals d, length (time_buffers d)))
    <$> HardwareDevice_new clock0 load_sr
  = Some (ELECTRONIC_LOAD, [Some 0; Some 0], 1).
Proof. reflexivity. Qed.

Example supply_private_time_buffers :
  (λ d, (type_ d, sig_time_data <$> all_signals d, length (time_buffers d)))
    <$> HardwareDevice_new clock0 supply_sr
  = Some (POWER_SUPPLY, [Some 0; Some 2], 2).
Proof. reflexivity. Qed.

(** ** Metadata *)

Lemma feed_in_meta_loop_emits c config emitted :
  feed_in_meta_loop (Some c) config emitted
  = Some (emitted ++ omap (λ entry, pair c <$> recognized entry) config).
Proof.
  revert emitted. induction config as [|entry config IH]; intros emitted; simpl.
  - by rewrite app_nil_r.
  - destruct entry as [key v].
    destruct key; simpl; rewrite IH; simpl; by rewrite <- ?app_assoc.
Qed.

Lemma HardwareDevice_new_configurables clock sr d :
  HardwareDevice_new clock sr = Some d →
  configurables d
  = match sr_channel_groups sr with
    | [] => [ConfigurableOfDevice]
    | groups => (λ g, ConfigurableOfGroup g.2) <$> groups
    end.
Proof.
  intros Hnew.
  apply HardwareDevice_new_inv in Hnew
    as (type & common & fixed_mq & heap & d1 & _ & Hrun & ->).
  unfold configurables. rewrite init_configurables_configurables.
  destruct (init_signals_type _ _ _ _ _ _ Hrun) as [_ ->]. simpl.
  by destruct (sr_channel_groups sr).
Qed.

Lemma configurables_nonempty_head clock sr d :
  HardwareDevice_new clock sr = Some d → ∃ c cs, configurables d = c :: cs.
Proof.
  intros Hnew. rewrite (HardwareDevice_new_configurables _ _ _ Hnew).
  destruct (sr_channel_groups sr) as [|g groups]; simpl; eauto.
Qed.

(** C10: a constructed device has one [Configurable] per channel group
    that the driver reports, or exactly one for the whole device when it
    reports none; the list is never empty, so [feed_in_meta] finds a
    [Configurable] at index 0 and never dereferences a null pointer,
    whatever the metadata packet. *)
Theorem configurables_never_empty clock sr d :
  HardwareDevice_new clock sr = Some d →
  configurables d
  = match sr_channel_groups sr with
    | [] => [ConfigurableOfDevice]
    | groups => (λ g, ConfigurableOfGroup g.2) <$> groups
    end ∧
  length (configurables d) = Nat.max 1 (length (sr_channel_groups sr)) ∧
  is_Some (configurables d !! 0) ∧
  ∀ config, is_Some (feed_in_meta d config).
Proof.
  intros Hnew. pose proof (HardwareDevice_new_configurables _ _ _ Hnew) as Hcf.
  split; [done|].
  assert (Hlen : length (configurables d) = Nat.max 1 (length (sr_channel_groups sr))).
  { rewrite Hcf. destruct (sr_channel_groups sr) as [|g groups]; [done|].
    rewrite length_fmap. simpl. lia. }
  split; [done|].
  destruct (configurables_nonempty_head clock sr d Hnew) as (c & cs & Hcs).
  split; [rewrite Hcs; simpl; eauto|]. intros config.
  unfold feed_in_meta, configurables in *. rewrite Hcs. simpl.
  rewrite feed_in_meta_loop_emits. eauto.
Qed.

Lemma configurables_never_empty_witness :
  ∃ d, HardwareDevice_new clock0 supply_sr = Some d ∧
       configurables d
       = [ConfigurableOfGroup {| cg_name := "1"; cg_channels := two_channels |}] ∧
       length (configurables d) = 1 ∧
       is_Some (configurables d !! 0) ∧
       ∀ config, is_Some (feed_in_meta d config).
Proof.
  destruct (HardwareDevice_new clock0 supply_sr) as [d|] eqn:Hnew.
  - exists d. split; [reflexivity|].
    exact (configurables_never_empty clock0 supply_sr d Hnew).
  - vm_compute in Hnew. discriminate Hnew.
Defined.

(** C6: on a constructed device, [feed_in_meta] emits one notification for
    each entry with a recognized key, in the order of the entries, carrying
    the decoded value and always sent by the [Configurable] at index 0;
    entries with other keys emit nothing, and the call does not fail. *)
Theorem feed_in_meta_emissions clock sr d config :
  HardwareDevice_new clock sr = Some d →
  ∃ c, configurables d !! 0 = Some c ∧
       feed_in_meta d config
       = Some (omap (λ entry, pair c <$> recognized entry) config).
Proof.
  intros Hnew.
  destruct (configurables_nonempty_head clock sr d Hnew) as (c & cs & Hcs).
  exists c. unfold feed_in_meta, configurables in *. rewrite Hcs. simpl.
  split; [done|]. by rewrite feed_in_meta_loop_emits.
Qed.

Lemma feed_in_meta_emissions_witness :
  ∃ d, HardwareDevice_new clock0 supply_sr = Some d ∧
       ∃ c, configurables d !! 0 = Some c ∧
            feed_in_meta d
              [(SR_CONF_OTHER 7, GVariantOther); (SR_CONF_ENABLED, GVariantBoolean true)]
            = Some [(c, enabled_changed true)].
Proof.
  destruct (HardwareDevice_new clock0 supply_sr) as [d|] eqn:Hnew.
  - exists d. split; [reflexivity|].
    exact (feed_in_meta_emissions clock0 supply_sr d
             [(SR_CONF_OTHER 7, GVariantOther); (SR_CONF_ENABLED, GVariantBoolean true)]
             Hnew).
  - vm_compute in Hnew. discriminate Hnew.
Defined.

(** C2, at the failing input: the policy table never aborts, since
    [assert("Unknown device")] tests a non-null pointer; a device whose
    driver announces none of the four classes is constructed with type
    [UNKNOWN] and with its signals, like any other device. *)
Theorem unknown_device_is_constructed :
  (∀ sr_keys, is_Some (device_options sr_keys)) ∧
  ∃ d, HardwareDevice_new clock0 unknown_sr = Some d ∧
       type_ d = UNKNOWN ∧
       internal_name <$> all_signals d = ["V1"] ∧
       internal_name <$> voltage_signal d = Some "V1" ∧
       configurables d = [ConfigurableOfDevice].
Proof.
  split.
  - intros sr_keys. unfold device_options. repeat case_match; eauto.
  - eexists. split; [vm_compute; reflexivity|]. repeat split.
Qed.

(** ** The life cycle: the claims *)

Lemma join_if_joinable st :
  aquisition_thread_
    (if bool_decide (is_Some (aquisition_thread_ st)) then join st else st) = None.
Proof.
  case_bool_decide as Hj.
  - unfold join. by destruct (aquisition_thread_ st).
  - destruct (aquisition_thread_ st); [|done]. exfalso. eauto.
Qed.

Lemma close_joins st :
  device_open_ st = true →
  aquisition_thread_ (close st) = None ∧ device_open_ (close st) = false.
Proof.
  intros Hopen. unfold close. rewrite Hopen.
  split; [|done]. cbn [negb]. cbv iota.
  set (st2 := if bool_decide (aquisition_state_ _ ≠ Stopped) then _ else _).
  exact (join_if_joinable st2).
Qed.

(** C8: when the driver fails to open the device, [open] throws the
    driver's message to its caller, and does nothing else than the [close]
    of a device that was open: the resulting state depends neither on
    [error_handler] nor on the message, no acquisition thread exists
    afterwards, and a device that was closed is left exactly as it was
    (no event at all, hence no call of [error_handler]). *)
Theorem open_failure_is_synchronous drv error_handler n st e :
  sr_open drv = Some e →
  open drv error_handler n st
    = (Thrown e, if device_open_ st then close st else st) ∧
  (∀ error_handler' n',
     open drv error_handler' n' st = open drv error_handler n st) ∧
  (device_open_ st = false → (open drv error_handler n st).2 = st) ∧
  (device_open_ st = true →
     aquisition_thread_ (open drv error_handler n st).2 = None ∧
     device_open_ (open drv error_handler n st).2 = false).
Proof.
  intros Hfail.
  assert (Heq : open drv error_handler n st
                = (Thrown e, if device_open_ st then close st else st)).
  { unfold open. by rewrite Hfail. }
  rewrite Heq. simpl. split; [done|]. split; [|split].
  - intros error_handler' n'. unfold open. by rewrite Hfail.
  - by intros ->.
  - intros Hopen. rewrite Hopen. by apply close_joins.
Qed.

Lemma open_failure_is_synchronous_witness :
  sr_open open_fails = Some "open failed" ∧
  open open_fails (Some 0) 0 closed_session
    = (Thrown "open failed",
       if device_open_ closed_session then close closed_session else closed_session) ∧
  (∀ error_handler' n',
     open open_fails error_handler' n' closed_session
     = open open_fails (Some 0) 0 closed_session) ∧
  (device_open_ closed_session = false →
     (open open_fails (Some 0) 0 closed_session).2 = closed_session) ∧
  (device_open_ closed_session = true →
     aquisition_thread_ (open open_fails (Some 0) 0 closed_session).2 = None ∧
     device_open_ (open open_fails (Some 0) 0 closed_session).2 = false).
Proof.
  split; [reflexivity|].
  exact (open_failure_is_synchronous open_fails (Some 0) 0 closed_session
           "open failed" eq_refl).
Defined.

(** The acquisition thread, run on its own from any state, when the
    session fails to start: one call of [error_handler], and
    [aquisition_state_] as it was found. *)
Lemma start_failure_keeps_state drv h e st :
  aborted st = false →
  sr_start drv = Some e →
  let st' := exec_steps (aquisition_thread_proc drv (Some h)) st in
  aquisition_state_ st' = aquisition_state_ st ∧
  trace st' = trace st ++ [EvDriver SessionStart; EvErrorHandler h e].
Proof.
  intros Hab Hstart. unfold aquisition_thread_proc. rewrite Hstart.
  destruct st as [o a m t ab tr]. simpl in Hab. subst ab.
  cbn. by rewrite <- app_assoc.
Qed.

(** C1, the failing inputs: the session fails to start on a device that
    was closed. Whatever the schedule [n] of the new thread against the
    caller, [open] returns, [error_handler] is called once with the driver's
    message, the thread never assigns [Stopped], and when the thread has
    ended [aquisition_state_] is [Running]. *)
Theorem start_failure_state_running drv h e n st :
  device_open_ st = false →
  aquisition_thread_ st = None →
  aborted st = false →
  sr_open drv = None →
  sr_start drv = Some e →
  (open drv (Some h) n st).1 = Returned ∧
  let st' := join (open drv (Some h) n st).2 in
  aquisition_thread_ st' = None ∧
  aquisition_state_ st' = Running ∧
  (EvState Task Stopped ∉ events_since st st') ∧
  handler_calls (events_since st st')
  = [ {| hc_handler := h; hc_msg := e; hc_task_stopped := false; hc_in_feed := false |} ].
Proof.
  intros Hclosed Hthread Hab Hopen Hstart.
  destruct st as [o a m t ab tr]. simpl in *. subst o t ab.
  unfold open, aquisition_thread_proc. rewrite Hopen, Hstart. cbn -[take drop].
  unfold events_since.
  destruct n as [|[|[|[|n]]]]; cbn; rewrite ?take_nil, ?drop_nil; cbn;
    rewrite <- !app_assoc; rewrite drop_app_length;
    (split; [done|]); (split; [done|]); (split; [done|]);
    (split; [|reflexivity]);
    intros Hin;
    repeat (apply elem_of_cons in Hin as [Hin|Hin]; [discriminate Hin|]);
    by apply elem_of_nil in Hin.
Qed.

Lemma start_failure_state_running_witness :
  device_open_ closed_session = false ∧
  aquisition_thread_ closed_session = None ∧
  aborted closed_session = false ∧
  sr_open start_fails = None ∧
  sr_start start_fails = Some "start failed" ∧
  (open start_fails (Some 0) 0 closed_session).1 = Returned ∧
  let st' := join (open start_fails (Some 0) 0 closed_session).2 in
  aquisition_thread_ st' = None ∧
  aquisition_state_ st' = Running ∧
  (EvState Task Stopped ∉ events_since closed_session st') ∧
  handler_calls (events_since closed_session st')
  = [{| hc_handler := 0; hc_msg := "start failed"; hc_task_stopped := false;
        hc_in_feed := false |}].
Proof.
  do 5 (split; [reflexivity|]).
  exact (start_failure_state_running start_fails 0 "start failed" 0 closed_session
           eq_refl eq_refl eq_refl eq_refl eq_refl).
Defined.

(** The run loop's packets: the callback is entered and left once per
    packet, the flag is raised by a data packet that exhausts the memory,
    and nothing else changes. *)
Lemma exec_steps_feed packets st :
  aborted st = false →
  exec_steps (FeedIn <$> packets) st
  = {| device_open_ := device_open_ st;
       aquisition_state_ := aquisition_state_ st;
       out_of_memory_ := out_of_memory_ st || existsb alloc_fails packets;
       aquisition_thread_ := aquisition_thread_ st;
       aborted := false;
       trace := trace st ++ feed_events packets |}.
Proof.
  revert st. induction packets as [|p packets IH]; intros st Hab.
  - destruct st; simpl in *; subst. by rewrite orb_false_r, app_nil_r.
  - change (exec_steps (FeedIn <$> p :: packets) st)
      with (exec_steps (FeedIn <$> packets) (exec_step (FeedIn p) st)).
    assert (Hstep : exec_step (FeedIn p) st
                    = {| device_open_ := device_open_ st;
                         aquisition_state_ := aquisition_state_ st;
                         out_of_memory_ := out_of_memory_ st || alloc_fails p;
                         aquisition_thread_ := aquisition_thread_ st;
                         aborted := false;
                         trace := trace st ++ [EvFeedEnter; EvFeedLeave] |}).
    { unfold exec_step. rewrite Hab.
      destruct st as [o a m t ab tr]. simpl in Hab. subst ab.
      destruct p as [[|]|]; unfold data_feed_in, log, set_out_of_memory; cbn;
        rewrite <- ?app_assoc; rewrite ?orb_true_r, ?orb_false_r; done. }
    rewrite Hstep, IH by done. cbn.
    by rewrite <- orb_assoc, <- app_assoc.
Qed.

Lemma handler_calls_from_feed task_stopped packets rest :
  handler_calls_from task_stopped false (feed_events packets ++ rest)
  = handler_calls_from task_stopped false rest.
Proof. induction packets as [|p packets IH]; [done|]. exact IH. Qed.

Lemma existsb_alloc_fails packets :
  DataPacket true ∈ packets → existsb alloc_fails packets = true.
Proof.
  intros Hin. apply existsb_exists. exists (DataPacket true).
  split; [by apply list_elem_of_In|done].
Qed.

(** C7, as the code has it: when the session has started, a data packet
    has raised the out-of-memory flag and the run loop returns without a
    driver error, the acquisition thread calls [error_handler] exactly
    once, with the out-of-memory message, after it has assigned [Stopped]
    and outside the datafeed callback. *)
Theorem out_of_memory_reported_after_stop drv h st :
  aborted st = false →
  sr_start drv = None →
  sr_run drv = None →
  DataPacket true ∈ sr_run_packets drv →
  let st' := exec_steps (aquisition_thread_proc drv (Some h)) st in
  out_of_memory_ st' = true ∧
  aquisition_state_ st' = Stopped ∧
  handler_calls (events_since st st')
  = [ {| hc_handler := h; hc_msg := out_of_memory_message;
         hc_task_stopped := true; hc_in_feed := false |} ].
Proof.
  intros Hab Hstart Hrun Hin. unfold aquisition_thread_proc.
  rewrite Hstart, Hrun.
  destruct st as [o a m t ab tr]. simpl in Hab. subst ab.
  unfold exec_steps.
  cbn [foldl]. rewrite foldl_app.
  match goal with
  | |- context [foldl _ ?s0 (map FeedIn ?p)] =>
      change (foldl (λ st x, exec_step x st) s0 (map FeedIn p))
        with (exec_steps (FeedIn <$> p) s0);
      rewrite (exec_steps_feed p s0 eq_refl)
  end.
  cbn. rewrite (existsb_alloc_fails _ Hin). cbn.
  split; [done|]. split; [done|].
  unfold events_since, handler_calls. cbn.
  rewrite <- !app_assoc, drop_app_length. cbn.
  by rewrite handler_calls_from_feed.
Qed.

Lemma out_of_memory_reported_after_stop_witness :
  aborted closed_session = false ∧
  sr_start run_out_of_memory = None ∧
  sr_run run_out_of_memory = None ∧
  DataPacket true ∈ sr_run_packets run_out_of_memory ∧
  let st' := exec_steps (aquisition_thread_proc run_out_of_memory (Some 0)) closed_session in
  out_of_memory_ st' = true ∧
  aquisition_state_ st' = Stopped ∧
  handler_calls (events_since closed_session st')
  = [ {| hc_handler := 0; hc_msg := out_of_memory_message;
         hc_task_stopped := true; hc_in_feed := false |} ].
Proof.
  assert (Hin : DataPacket true ∈ sr_run_packets run_out_of_memory).
  { apply list_elem_of_further, list_elem_of_here. }
  do 3 (split; [reflexivity|]). split; [exact Hin|].
  exact (out_of_memory_reported_after_stop run_out_of_memory 0 closed_session
           eq_refl eq_refl eq_refl Hin).
Defined.

(** C7 as stated fails: when the run loop raises after a data packet has
    raised the flag, [error_handler] is called once, with the driver's
    message and before the thread assigns [Stopped]; the out-of-memory
    condition is not reported at all. *)
Lemma out_of_memory_lost_when_run_raises :
  let st' :=
    exec_steps (aquisition_thread_proc run_out_of_memory_raises (Some 0)) closed_session in
  out_of_memory_ st' = true ∧
  handler_calls (events_since closed_session st')
  = [ {| hc_handler := 0; hc_msg := "run failed";
         hc_task_stopped := false; hc_in_feed := false |} ] ∧
  handler_calls (events_since closed_session st')
  ≠ [ {| hc_handler := 0; hc_msg := out_of_memory_message;
         hc_task_stopped := true; hc_in_feed := false |} ].
Proof. cbv zeta. split; [reflexivity|]. split; [reflexivity|]. discriminate. Qed.

(** ** Further properties: names *)

Lemma append_nil_r (s : string) : String.append s "" = s.
Proof.
  induction s as [|a s IH]; [done|].
  change (String.append (String a s) "") with (String a (String.append s "")).
  by rewrite IH.
Qed.

Lemma append_assoc (s t u : string) :
  String.append (String.append s t) u = String.append s (String.append t u).
Proof.
  induction s as [|a s IH]; [done|].
  change (String a (String.append (String.append s t) u)
          = String a (String.append s (String.append t u))).
  by rewrite IH.
Qed.

Lemma length_append (s t : string) :
  String.length (String.append s t) = String.length s + String.length t.
Proof.
  induction s as [|a s IH]; [done|].
  change (S (String.length (String.append s t)) = S (String.length s + String.length t)).
  by rewrite IH.
Qed.

Lemma has_length_false (s : string) : has_length s = false ↔ s = "".
Proof. by destruct s. Qed.

Lemma has_length_true (s : string) : has_length s = true ↔ ∃ a s', s = String a s'.
Proof. destruct s; split; try done; eauto. by intros (? & ? & ?). Qed.

Ltac name_cases d :=
  destruct d as [v m ver ser c];
  destruct v as [|v0 v], m as [|m0 m], ver as [|ver0 ver], ser as [|ser0 ser],
    c as [|c0 c].

(** X1: [full_name] loses and invents no character: its length is the sum
    of the lengths of the four leading fields, one separator for each
    non-empty leading field after the first, and, for a non-empty
    connection id, the id, its two parentheses and one separator when some
    leading field is not empty. *)
Theorem full_name_length d :
  let k := count_nonempty [vendor d; model d; version d; serial_number d] in
  String.length (full_name d)
  = String.length (vendor d) + String.length (model d)
    + String.length (version d) + String.length (serial_number d)
    + (k - 1)
    + (if has_length (connection_id d)
       then String.length (connection_id d) + 2 + (if Nat.eqb k 0 then 0 else 1)
       else 0).
Proof.
  name_cases d; cbn; rewrite ?length_append; cbn; rewrite ?length_append; cbn; lia.
Qed.

(** X2: [full_name] and [short_name] give the same string exactly when the
    version and the serial number are both empty. *)
Theorem full_name_short_name d :
  full_name d = short_name d ↔ version d = "" ∧ serial_number d = "".
Proof.
  split.
  - intros Heq. apply (f_equal String.length) in Heq. revert Heq.
    name_cases d; cbn; rewrite ?length_append; cbn; rewrite ?length_append; cbn;
      intros Heq; first [done | lia].
  - destruct d as [v m ver ser c]. simpl. intros [-> ->].
    by destruct v, m, c.
Qed.

(** X3: when at most one of vendor, model, version and serial number is
    not empty, [full_name] is the join of the non-empty fields (the
    connection id in parentheses) with single spaces. *)
Theorem full_name_single_field d :
  count_nonempty [vendor d; model d; version d; serial_number d] ≤ 1 →
  full_name d = full_name_spec d.
Proof.
  name_cases d; cbn; intros Hk; first [lia | idtac];
    rewrite ?append_nil_r, ?append_assoc; reflexivity.
Qed.

Lemma full_name_single_field_witness :
  let d := {| vendor := ""; model := "Model"; version := "";
              serial_number := ""; connection_id := "usb/1-2" |} in
  count_nonempty [vendor d; model d; version d; serial_number d] ≤ 1 ∧
  full_name d = full_name_spec d.
Proof.
  split; [cbn; lia|].
  apply (full_name_single_field
           {| vendor := ""; model := "Model"; version := "";
              serial_number := ""; connection_id := "usb/1-2" |}).
  cbn. lia.
Defined.

Lemma multiple_dev_true devices this :
  multiple_dev devices this = true ↔
  ∃ dev, dev ∈ devices ∧
         vendor (hw_identity dev) = vendor (hw_identity this) ∧
         model (hw_identity dev) = model (hw_identity this) ∧
         hw_sr_device dev ≠ hw_sr_device this.
Proof.
  unfold multiple_dev. rewrite existsb_exists. split.
  - intros (dev & Hin & Hdev). exists dev.
    apply andb_true_iff in Hdev as [Hdev Hptr].
    apply andb_true_iff in Hdev as [Hv Hm].
    apply String.eqb_eq in Hv, Hm. apply negb_true_iff, Nat.eqb_neq in Hptr.
    by rewrite list_elem_of_In.
  - intros (dev & Hin & Hv & Hm & Hptr). exists dev.
    split; [by apply list_elem_of_In|].
    rewrite Hv, Hm, !String.eqb_refl. simpl.
    by apply negb_true_iff, Nat.eqb_neq.
Qed.

(** X4: a device that shares vendor and model with no other listed device
    (other than itself) is displayed as vendor, one space, model, whether
    or not these are empty, and whatever its other identity fields are. *)
Theorem display_name_unique devices this :
  (∀ dev, dev ∈ devices →
     vendor (hw_identity dev) = vendor (hw_identity this) →
     model (hw_identity dev) = model (hw_identity this) →
     hw_sr_device dev = hw_sr_device this) →
  display_name devices this
  = String.append (vendor (hw_identity this))
      (String.append " " (model (hw_identity this))).
Proof.
  intros Huniq. unfold display_name.
  destruct (multiple_dev devices this) eqn:Hmulti; [|done].
  apply multiple_dev_true in Hmulti as (dev & Hin & Hv & Hm & Hptr).
  destruct (Hptr (Huniq dev Hin Hv Hm)).
Qed.

Lemma display_name_unique_witness :
  let this :=
    {| hw_sr_device := 1;
       hw_identity := {| vendor := "Korad"; model := "KA3005P"; version := "2.0";
                         serial_number := ""; connection_id := "/dev/ttyACM0" |} |} in
  let other :=
    {| hw_sr_device := 2;
       hw_identity := {| vendor := "Korad"; model := "KD3005P"; version := "";
                         serial_number := ""; connection_id := "" |} |} in
  (∀ dev, dev ∈ [this; other] →
     vendor (hw_identity dev) = vendor (hw_identity this) →
     model (hw_identity dev) = model (hw_identity this) →
     hw_sr_device dev = hw_sr_device this) ∧
  display_name [this; other] this = "Korad KA3005P".
Proof.
  intros this other.
  assert (Huniq : ∀ dev, dev ∈ [this; other] →
            vendor (hw_identity dev) = vendor (hw_identity this) →
            model (hw_identity dev) = model (hw_identity this) →
            hw_sr_device dev = hw_sr_device this).
  { intros dev Hin _ Hm.
    apply elem_of_cons in Hin as [->|Hin]; [reflexivity|].
    apply list_elem_of_singleton in Hin as ->. discriminate Hm. }
  split; [exact Huniq|].
  exact (display_name_unique [this; other] this Huniq).
Defined.

(** X5: two listed devices of the same vendor and model behind different
    driver handles are both displayed in the long form: vendor, model,
    version and serial number joined by single spaces (empty fields
    included), followed by the parenthesized connection id when the serial
    number is empty and the connection id is not. *)
Theorem display_name_twins devices a b :
  a ∈ devices → b ∈ devices →
  vendor (hw_identity a) = vendor (hw_identity b) →
  model (hw_identity a) = model (hw_identity b) →
  hw_sr_device a ≠ hw_sr_device b →
  ∀ this, this = a ∨ this = b →
    let d := hw_identity this in
    display_name devices this
    = boost_join
        ([vendor d; model d; version d; serial_number d]
         ++ if Nat.eqb (String.length (serial_number d)) 0 && has_length (connection_id d)
            then [String.append (String.append "(" (connection_id d)) ")"]
            else [])
        " ".
Proof.
  intros Ha Hb Hv Hm Hptr this Hthis.
  assert (Hmulti : multiple_dev devices this = true).
  { apply multiple_dev_true. destruct Hthis as [-> | ->].
    - exists b. by repeat split.
    - exists a. repeat split; [done | done | done |]. by intros ?. }
  unfold display_name. rewrite Hmulti. cbv zeta.
  by destruct (Nat.eqb _ 0 && has_length _).
Qed.

Lemma display_name_twins_witness :
  let a :=
    {| hw_sr_device := 1;
       hw_identity := {| vendor := "Korad"; model := "KA3005P"; version := "2.0";
                         serial_number := ""; connection_id := "/dev/ttyACM0" |} |} in
  let b :=
    {| hw_sr_device := 2;
       hw_identity := {| vendor := "Korad"; model := "KA3005P"; version := "";
                         serial_number := "1234"; connection_id := "/dev/ttyACM1" |} |} in
  display_name [a; b] a = "Korad KA3005P 2.0  (/dev/ttyACM0)" ∧
  display_name [a; b] b = "Korad KA3005P  1234".
Proof.
  intros a b.
  assert (Ha : a ∈ [a; b]) by apply list_elem_of_here.
  assert (Hb : b ∈ [a; b]) by apply list_elem_of_further, list_elem_of_here.
  assert (Hptr : hw_sr_device a ≠ hw_sr_device b) by (intros Heq; discriminate Heq).
  split.
  - exact (display_name_twins [a; b] a b Ha Hb eq_refl eq_refl Hptr a (or_introl eq_refl)).
  - exact (display_name_twins [a; b] a b Ha Hb eq_refl eq_refl Hptr b (or_intror eq_refl)).
Defined.

(** ** Further properties: the constructor *)

Lemma device_options_eq sr_keys :
  device_options sr_keys
  = Some (if bool_decide (SR_CONF_POWER_SUPPLY ∈ sr_keys) then
            (POWER_SUPPLY, None, true, [])
          else if bool_decide (SR_CONF_ELECTRONIC_LOAD ∈ sr_keys) then
            (ELECTRONIC_LOAD, Some 0, true, [init_time_data])
          else if bool_decide (SR_CONF_MULTIMETER ∈ sr_keys) then
            (MULTIMETER, None, false, [])
          else if bool_decide (SR_CONF_DEMO_DEV ∈ sr_keys) then
            (DEMO_DEV, None, false, [])
          else (UNKNOWN, None, false, [])).
Proof. unfold device_options, count. by repeat case_bool_decide. Qed.

(** What [init_signal] does to the lookup tables and the start time. *)
Lemma init_signal_tables clock ch common fixed_mq d r :
  init_signal clock ch common fixed_mq d = Some r →
  (ch_type ch = SR_CHANNEL_LOGIC ∧ r = (None, d)) ∨
  (ch_type ch = SR_CHANNEL_ANALOG ∧
   ∃ s,
     r.1 = Some s ∧
     sig_sr_channel s = ch ∧
     sig_time_start s = Some (clock (length (all_signals_ d))) ∧
     all_signals_ r.2 = all_signals_ d ++ [s] ∧
     signal_name_map_ r.2 = map_insert (ch_name ch) s (signal_name_map_ d) ∧
     sr_channel_signal_map_ r.2 = map_insert (ch_ptr ch) s (sr_channel_signal_map_ d) ∧
     channel_group_name_signals_map_ r.2 = channel_group_name_signals_map_ d).
Proof.
  unfold init_signal. destruct (ch_type ch) eqn:Hty.
  - intros [= <-]. by left.
  - intros Hr. right. split; [done|].
    destruct common as [a|]; cbv beta iota zeta in Hr;
      destruct (init_signal_canonical _ _) as [[v c] m] eqn:Hcan;
      injection Hr as <-; eexists; repeat split; reflexivity.
  - discriminate.
Qed.

Lemma map_insert_first {K V} `{Countable K} (key : V → K) (m : gmap K V)
    (l : list V) (v : V) :
  (∀ k, m !! k = head (filter (λ x, key x = k) l)) →
  ∀ k, map_insert (key v) v m !! k = head (filter (λ x, key x = k) (l ++ [v])).
Proof.
  intros Hm k. rewrite head_filter_snoc, <- Hm. unfold map_insert.
  destruct (decide (key v = k)) as [<-|Hne].
  - destruct (m !! key v) as [y|] eqn:Hy; [by rewrite Hy|].
    by rewrite lookup_insert_eq.
  - destruct (m !! key v) eqn:Hy; [by destruct (m !! k)|].
    rewrite lookup_insert_ne by done. by destruct (m !! k).
Qed.

Lemma init_signals_tables clock common fixed_mq chs d d' :
  ((∀ p, sr_channel_signal_map_ d !! p
         = head (filter (λ s, ch_ptr (sig_sr_channel s) = p) (all_signals_ d))) ∧
   (∀ n, signal_name_map_ d !! n
         = head (filter (λ s, internal_name s = n) (all_signals_ d))) ∧
   channel_group_name_signals_map_ d = ∅) →
  init_signals clock chs common fixed_mq d = Some d' →
  (∀ p, sr_channel_signal_map_ d' !! p
        = head (filter (λ s, ch_ptr (sig_sr_channel s) = p) (all_signals_ d'))) ∧
  (∀ n, signal_name_map_ d' !! n
        = head (filter (λ s, internal_name s = n) (all_signals_ d'))) ∧
  channel_group_name_signals_map_ d' = ∅.
Proof.
  apply (init_signals_ind clock common fixed_mq (λ x,
    (∀ p, sr_channel_signal_map_ x !! p
          = head (filter (λ s, ch_ptr (sig_sr_channel s) = p) (all_signals_ x))) ∧
    (∀ n, signal_name_map_ x !! n
          = head (filter (λ s, internal_name s = n) (all_signals_ x))) ∧
    channel_group_name_signals_map_ x = ∅)).
  clear. intros d ch r (Hp & Hn & Hg) Hr.
  apply init_signal_tables in Hr
    as [[_ ->]|[_ (s & _ & Hch & _ & Hall & Hnm & Hpm & Hgm)]]; [done|].
  rewrite Hall, Hnm, Hpm, Hgm. split; [|split; [|done]].
  - rewrite <- Hch. by apply (map_insert_first (λ s, ch_ptr (sig_sr_channel s))).
  - rewrite <- Hch. by apply (map_insert_first internal_name).
Qed.

Lemma foldl_add_channel_group groups d :
  let d' := foldl add_channel_group d groups in
  all_signals_ d' = all_signals_ d ∧
  sr_channel_signal_map_ d' = sr_channel_signal_map_ d ∧
  signal_name_map_ d' = signal_name_map_ d ∧
  ∀ n, channel_group_name_signals_map_ d' !! n
       = match channel_group_name_signals_map_ d !! n with
         | Some l => Some l
         | None =>
             (λ g, cg_signals_of d g.2) <$> head (filter (λ g, cg_name g.2 = n) groups)
         end.
Proof.
  revert d. induction groups as [|g groups IH]; intros d; simpl.
  - repeat split. intros n. by destruct (_ !! n).
  - destruct (IH (add_channel_group d g)) as (-> & -> & -> & Hmap).
    repeat split. intros n. rewrite Hmap. simpl.
    unfold map_insert, cg_signals_of. simpl. rewrite filter_cons.
    destruct (decide (cg_name g.2 = n)) as [<-|Hne].
    + destruct (channel_group_name_signals_map_ d !! cg_name g.2) eqn:Hold.
      * by rewrite Hold.
      * by rewrite lookup_insert_eq.
    + destruct (channel_group_name_signals_map_ d !! cg_name g.2) eqn:Hold.
      * done.
      * by rewrite lookup_insert_ne.
Qed.

(** X6: the device type follows the driver's keys in the order power
    supply, electronic load, multimeter, demo device (the first key found
    decides, the others are not looked at), and every signal of the device
    carries the fixed-quantity flag of that type: set for a power supply
    and an electronic load, clear for every other type. *)
Theorem device_type_and_fixed_quantity clock sr d :
  HardwareDevice_new clock sr = Some d →
  type_ d
  = (if bool_decide (SR_CONF_POWER_SUPPLY ∈ sr_config_keys sr) then POWER_SUPPLY
     else if bool_decide (SR_CONF_ELECTRONIC_LOAD ∈ sr_config_keys sr) then ELECTRONIC_LOAD
     else if bool_decide (SR_CONF_MULTIMETER ∈ sr_config_keys sr) then MULTIMETER
     else if bool_decide (SR_CONF_DEMO_DEV ∈ sr_config_keys sr) then DEMO_DEV
     else UNKNOWN) ∧
  ∀ s, s ∈ all_signals d →
    sig_fixed_mq s = bool_decide (type_ d = POWER_SUPPLY ∨ type_ d = ELECTRONIC_LOAD).
Proof.
  intros Hnew.
  apply HardwareDevice_new_inv in Hnew
    as (type & common & fixed_mq & heap & d1 & Hopt & Hrun & ->).
  destruct (init_configurables_fields (sr_channel_groups sr) d1)
    as (Hty & _ & Hall & _).
  destruct (init_signals_type _ _ _ _ _ _ Hrun) as [Hty1 _]. simpl in Hty1.
  unfold all_signals. rewrite Hty, Hall, Hty1.
  assert (Hbuf : buffers_ok common fixed_mq d1).
  { eapply init_signals_buffers_ok; [|exact Hrun]. split; [|by intros ? ?%elem_of_nil].
    simpl. intros c ->.
    by apply device_options_cases in Hopt as [(_ & [= ->] & -> & _)|(_ & [=] & _)]. }
  rewrite device_options_eq in Hopt.
  assert (Hflag : ∀ s, s ∈ all_signals_ d1 → sig_fixed_mq s = fixed_mq).
  { intros s Hin. destruct Hbuf as [_ Hbuf]. by destruct (Hbuf s Hin) as [-> _]. }
  clear Hbuf Hrun Hty Hty1 Hall.
  destruct (bool_decide (SR_CONF_POWER_SUPPLY ∈ sr_config_keys sr));
    [|destruct (bool_decide (SR_CONF_ELECTRONIC_LOAD ∈ sr_config_keys sr));
      [|destruct (bool_decide (SR_CONF_MULTIMETER ∈ sr_config_keys sr));
        [|destruct (bool_decide (SR_CONF_DEMO_DEV ∈ sr_config_keys sr))]]];
    injection Hopt as <- _ <- _; (split; [reflexivity|exact Hflag]).
Qed.

Lemma device_type_and_fixed_quantity_witness :
  ∃ d, HardwareDevice_new clock0 supply_sr = Some d ∧
       type_ d = POWER_SUPPLY ∧
       ∀ s, s ∈ all_signals d →
         sig_fixed_mq s = bool_decide (type_ d = POWER_SUPPLY ∨ type_ d = ELECTRONIC_LOAD).
Proof.
  destruct (HardwareDevice_new clock0 supply_sr) as [d|] eqn:Hnew.
  - exists d. split; [reflexivity|].
    exact (device_type_and_fixed_quantity clock0 supply_sr d Hnew).
  - vm_compute in Hnew. discriminate Hnew.
Defined.

Lemma init_signals_None clock common fixed_mq chs d :
  init_signals clock chs common fixed_mq d = None ↔
  ∃ c, c ∈ chs ∧ ch_type c = SR_CHANNEL_OTHER.
Proof.
  revert d. induction chs as [|ch chs IH]; intros d; simpl.
  - split; [done|]. by intros (c & ?%elem_of_nil & _).
  - destruct (init_signal clock ch common fixed_mq d) as [r|] eqn:Hr; simpl.
    + rewrite IH. split.
      * intros (c & Hin & Hc). exists c. split; [by right|done].
      * intros (c & Hin & Hc). apply elem_of_cons in Hin as [->|Hin]; [|eauto].
        apply init_signal_cases in Hr as [[Hty _]|[Hty _]]; congruence.
    + split; [|done]. intros _. exists ch. split; [by left|].
      unfold init_signal in Hr. destruct (ch_type ch); [done| |done].
      destruct common; cbv beta iota zeta in Hr;
        by destruct (init_signal_canonical _ _) as [[? ?] ?].
Qed.

(** X7: the constructor aborts (on [assert(false)]) exactly when the driver
    lists a channel that is neither logic nor analog; no set of keys, names
    or channel groups makes it fail otherwise. *)
Theorem construction_aborts_iff clock sr :
  HardwareDevice_new clock sr = None ↔
  ∃ c, c ∈ sr_channels sr ∧ ch_type c = SR_CHANNEL_OTHER.
Proof.
  unfold HardwareDevice_new. rewrite device_options_eq. simpl.
  set (opts := if bool_decide _ then _ else _).
  destruct opts as [[[type common] fixed_mq] heap].
  rewrite <- (init_signals_None clock common fixed_mq (sr_channels sr)
                {| type_ := type; analog_heap := heap; all_signals_ := [];
                   signal_name_map_ := ∅; sr_channel_signal_map_ := ∅;
                   voltage_signal_ := None; current_signal_ := None;
                   measurement_signal_ := None; configurables_ := [];
                   sr_channel_group_name_map_ := ∅;
                   channel_group_name_signals_map_ := ∅ |}).
  by destruct (init_signals _ _ _ _ _).
Qed.

Lemma HardwareDevice_new_tables clock sr d :
  HardwareDevice_new clock sr = Some d →
  ∃ d1,
    all_signals_ d = all_signals_ d1 ∧
    sr_channel_signal_map_ d = sr_channel_signal_map_ d1 ∧
    signal_name_map_ d = signal_name_map_ d1 ∧
    (∀ p, sr_channel_signal_map_ d1 !! p
          = head (filter (λ s, ch_ptr (sig_sr_channel s) = p) (all_signals_ d1))) ∧
    (∀ n, signal_name_map_ d1 !! n
          = head (filter (λ s, internal_name s = n) (all_signals_ d1))) ∧
    ∀ n, channel_group_name_signals_map_ d !! n
         = (λ g, cg_signals_of d1 g.2)
             <$> head (filter (λ g, cg_name g.2 = n) (sr_channel_groups sr)).
Proof.
  intros Hnew.
  apply HardwareDevice_new_inv in Hnew
    as (type & common & fixed_mq & heap & d1 & _ & Hrun & ->).
  apply init_signals_tables in Hrun as (Hp & Hn & Hg);
    [|by repeat split; intros; rewrite lookup_empty].
  exists d1. unfold init_configurables.
  destruct (sr_channel_groups sr) as [|g groups] eqn:Hgroups.
  - simpl. repeat split; try done. intros n. by rewrite Hg, lookup_empty.
  - change (negb _) with true. cbv iota.
    destruct (foldl_add_channel_group (g :: groups) d1) as (-> & -> & -> & Hmap).
    repeat split; try done. intros n. by rewrite Hmap, Hg, lookup_empty.
Qed.

(** X8: the two lookup tables of the constructor keep the first signal
    created for a key: [sr_channel_signal_map_] the first signal of the
    channel pointer, [signal_name_map_] the first signal of the internal
    name; a key without such a signal is absent. *)
Theorem lookup_tables_first_signal clock sr d :
  HardwareDevice_new clock sr = Some d →
  (∀ p, sr_channel_signal_map_ d !! p
        = first_signal (λ s, ch_ptr (sig_sr_channel s) = p) d) ∧
  (∀ n, signal_name_map_ d !! n = first_signal (λ s, internal_name s = n) d).
Proof.
  intros Hnew.
  destruct (HardwareDevice_new_tables _ _ _ Hnew) as (d1 & Hall & Hpm & Hnm & Hp & Hn & _).
  unfold first_signal, all_signals. rewrite Hall, Hpm, Hnm. done.
Qed.

Lemma lookup_tables_first_signal_witness :
  ∃ d, HardwareDevice_new clock0 supply_sr = Some d ∧
       (∀ p, sr_channel_signal_map_ d !! p
             = first_signal (λ s, ch_ptr (sig_sr_channel s) = p) d) ∧
       (∀ n, signal_name_map_ d !! n = first_signal (λ s, internal_name s = n) d).
Proof.
  destruct (HardwareDevice_new clock0 supply_sr) as [d|] eqn:Hnew.
  - exists d. split; [reflexivity|].
    exact (lookup_tables_first_signal clock0 supply_sr d Hnew).
  - vm_compute in Hnew. discriminate Hnew.
Defined.

Lemma omap_ext_all {A B} (f g : A → option B) (l : list A) :
  (∀ x, f x = g x) → omap f l = omap g l.
Proof.
  intros Hfg. induction l as [|x l IH]; [done|].
  change (match f x with Some y => y :: omap f l | None => omap f l end
          = match g x with Some y => y :: omap g l | None => omap g l end).
  by rewrite Hfg, IH.
Qed.

(** X9: [channel_group_name_signals_map()] has an entry for a name exactly
    when the driver reports a channel group of that name (so none at all
    for a device without channel groups); the entry of the first such
    group lists, for the channels of the group in their order, the signal
    created for the channel, and leaves out the channels that have no
    signal (logic channels, channels that the device does not list). *)
Theorem channel_group_signals clock sr d n :
  HardwareDevice_new clock sr = Some d →
  channel_group_name_signals_map d !! n
  = (λ g, omap (λ sr_c, first_signal (λ s, ch_ptr (sig_sr_channel s) = ch_ptr sr_c) d)
            (cg_channels g.2))
      <$> head (filter (λ g, cg_name g.2 = n) (sr_channel_groups sr)).
Proof.
  intros Hnew.
  destruct (HardwareDevice_new_tables _ _ _ Hnew) as (d1 & Hall & _ & _ & Hp & _ & Hg).
  unfold channel_group_name_signals_map. rewrite Hg.
  destruct (head _) as [g|]; [|done]. simpl. f_equal.
  unfold cg_signals_of, first_signal, all_signals. rewrite Hall.
  apply omap_ext_all. intros c. apply Hp.
Qed.

Lemma channel_group_signals_witness :
  ∃ d, HardwareDevice_new clock0 supply_sr = Some d ∧
       (λ l : list BaseSignal, internal_name <$> l)
         <$> (channel_group_name_signals_map d !! "1")
       = Some ["V1"; "I1"] ∧
       channel_group_name_signals_map d !! "2" = None.
Proof.
  destruct (HardwareDevice_new clock0 supply_sr) as [d|] eqn:Hnew.
  - exists d. split; [reflexivity|].
    rewrite !(channel_group_signals clock0 supply_sr d _ Hnew).
    vm_compute in Hnew. injection Hnew as <-. split; reflexivity.
  - vm_compute in Hnew. discriminate Hnew.
Defined.

Lemma init_signals_value_buffers clock common fixed_mq chs d d' :
  (NoDup (sig_data <$> all_signals_ d) ∧
   (∀ s, s ∈ all_signals_ d → ∃ a, sig_data s = Some a ∧ a < length (analog_heap d)) ∧
   length (analog_heap d) = length (all_signals_ d) + length (time_buffers d)) →
  init_signals clock chs common fixed_mq d = Some d' →
  NoDup (sig_data <$> all_signals_ d') ∧
  (∀ s, s ∈ all_signals_ d' → ∃ a, sig_data s = Some a ∧ a < length (analog_heap d')) ∧
  length (analog_heap d') = length (all_signals_ d') + length (time_buffers d').
Proof.
  apply (init_signals_ind clock common fixed_mq (λ x,
    NoDup (sig_data <$> all_signals_ x) ∧
    (∀ s, s ∈ all_signals_ x → ∃ a, sig_data s = Some a ∧ a < length (analog_heap x)) ∧
    length (analog_heap x) = length (all_signals_ x) + length (time_buffers x))).
  clear. intros d ch r (Hnd & Hlt & Hlen) Hr.
  apply init_signal_cases in Hr
    as [[_ ->]|[_ (s & heap & _ & _ & _ & Hdata & Htime & Hheap & Hall & _)]]; [done|].
  assert (Hheap_len : length (analog_heap d) ≤ length heap).
  { destruct common; destruct Htime as [_ ->]; [done|]. rewrite length_app. lia. }
  unfold time_buffers in *. rewrite Hall, Hheap, fmap_app, time_buffers_snoc_data.
  rewrite !length_app. simpl. split; [|split].
  - apply NoDup_app. split; [done|]. split; [|apply NoDup_singleton].
    intros x Hx Hx'. apply list_elem_of_singleton in Hx' as ->.
    apply list_elem_of_fmap in Hx as (s' & Heq & Hin).
    destruct (Hlt s' Hin) as (a & Ha & Hlt'). rewrite Hdata, Ha in Heq.
    injection Heq as Heq. lia.
  - intros s' Hin. apply elem_of_app in Hin as [Hin|Hin].
    + destruct (Hlt s' Hin) as (a & Ha & Hlt'). exists a. split; [done|lia].
    + apply list_elem_of_singleton in Hin as ->. eexists. split; [done|lia].
  - destruct common; destruct Htime as [_ ->].
    + lia.
    + rewrite time_buffers_snoc_time, !length_app. simpl. lia.
Qed.

(** X10: every signal owns its value buffer: the value buffers of the
    signals of a device are pairwise distinct objects, none of them is the
    time buffer of any signal, and the constructor allocates nothing else
    (the buffers are the value buffers, one per signal, and the time
    buffers). *)
Theorem value_buffers_private clock sr d :
  HardwareDevice_new clock sr = Some d →
  NoDup (sig_data <$> all_signals d) ∧
  (∀ s s', s ∈ all_signals d → s' ∈ all_signals d → sig_data s ≠ sig_time_data s') ∧
  length (analog_heap d) = length (all_signals d) + length (time_buffers d).
Proof.
  intros Hnew.
  destruct (HardwareDevice_new_ok _ _ _ Hnew) as (common & fixed_mq & [_ Hbuf] & _).
  apply HardwareDevice_new_inv in Hnew
    as (type & common' & fixed_mq' & heap & d1 & Hopt & Hrun & ->).
  destruct (init_configurables_fields (sr_channel_groups sr) d1)
    as (_ & Hheap & Hall & _).
  unfold all_signals, time_buffers in *. rewrite Hheap, Hall in *.
  apply init_signals_value_buffers in Hrun as (Hnd & _ & Hlen).
  - split; [done|]. split; [|done].
    intros s s' Hin Hin' Heq.
    destruct (Hbuf s Hin) as (_ & a & _ & Ha & Hva & _).
    destruct (Hbuf s' Hin') as (_ & _ & t & _ & _ & Ht & Hvt & _).
    rewrite Ha, Ht in Heq. injection Heq as ->.
    rewrite Hvt in Hva. injection Hva as Hva.
    apply (init_signal_data_not_time (internal_name s) fixed_mq).
    by rewrite <- Hva.
  - simpl. split; [constructor|]. split; [by intros ? ?%elem_of_nil|].
    unfold time_buffers. simpl.
    by apply device_options_cases in Hopt as [(_ & _ & -> & _)|(_ & _ & ->)].
Qed.

Lemma value_buffers_private_witness :
  ∃ d, HardwareDevice_new clock0 load_sr = Some d ∧
       NoDup (sig_data <$> all_signals d) ∧
       (∀ s s', s ∈ all_signals d → s' ∈ all_signals d →
          sig_data s ≠ sig_time_data s') ∧
       length (analog_heap d) = length (all_signals d) + length (time_buffers d).
Proof.
  destruct (HardwareDevice_new clock0 load_sr) as [d|] eqn:Hnew.
  - exists d. split; [reflexivity|].
    exact (value_buffers_private clock0 load_sr d Hnew).
  - vm_compute in Hnew. discriminate Hnew.
Defined.

(** X11: the signals of a device with at least two analog channels share
    a time buffer exactly when the device is an electronic load; for every
    other type, the unknown one included, each signal has a time buffer of
    its own. *)
Theorem time_buffer_shared_iff_load clock sr d :
  HardwareDevice_new clock sr = Some d →
  2 ≤ length (all_signals d) →
  NoDup (sig_time_data <$> all_signals d) ↔ type_ d ≠ ELECTRONIC_LOAD.
Proof.
  intros Hnew Htwo.
  destruct (HardwareDevice_new_ok _ _ _ Hnew)
    as (common & fixed_mq & [_ Hbuf] & _ & _ & Hload & Hother).
  split.
  - intros Hnd Hty. destruct (Hload Hty) as [[t ->] _].
    unfold all_signals in *.
    destruct (all_signals_ d) as [|s1 [|s2 l]]; simpl in Htwo; [lia..|].
    destruct (Hbuf s1) as (_ & _ & t1 & _ & _ & Ht1 & _ & Heq1); [by left|].
    destruct (Hbuf s2) as (_ & _ & t2 & _ & _ & Ht2 & _ & Heq2); [by right; left|].
    rewrite (Heq1 t eq_refl) in Ht1. rewrite (Heq2 t eq_refl) in Ht2.
    simpl in Hnd. rewrite Ht1, Ht2 in Hnd.
    apply NoDup_cons in Hnd as [Hnotin _]. apply Hnotin. by left.
  - intros Hty. by destruct (Hother Hty) as (_ & Hnd & _).
Qed.

Lemma time_buffer_shared_iff_load_witness :
  ∃ d, HardwareDevice_new clock0 demo_sr = Some d ∧
       2 ≤ length (all_signals d) ∧
       (NoDup (sig_time_data <$> all_signals d) ↔ type_ d ≠ ELECTRONIC_LOAD).
Proof.
  destruct (HardwareDevice_new clock0 demo_sr) as [d|] eqn:Hnew.
  - assert (Htwo : 2 ≤ length (all_signals d)).
    { vm_compute in Hnew. injection Hnew as <-. vm_compute. lia. }
    exists d. split; [reflexivity|]. split; [exact Htwo|].
    exact (time_buffer_shared_iff_load clock0 demo_sr d Hnew Htwo).
  - vm_compute in Hnew. discriminate Hnew.
Defined.

Lemma head_filter_fmap {A B} (f : A → B) (P : B → Prop) `{∀ y, Decision (P y)}
    (l : list A) :
  f <$> head (filter (λ x, P (f x)) l) = head (filter P (f <$> l)).
Proof.
  induction l as [|x l IH]; [done|].
  rewrite fmap_cons, !filter_cons. by destruct (decide (P (f x))).
Qed.

(** X12: the three canonical signals in terms of the driver's channel
    list: [voltage_signal()], [current_signal()] and
    [measurement_signal()] belong to the first analog channel whose name
    starts with "V", starts with "I", and is "P1" or "A1"; each is null
    exactly when the device has no such analog channel. *)
Theorem canonical_signals_by_channel clock sr d :
  HardwareDevice_new clock sr = Some d →
  sig_sr_channel <$> voltage_signal d
    = head (filter (λ c, startsWith (ch_name c) "V" = true) (analog_channels sr)) ∧
  sig_sr_channel <$> current_signal d
    = head (filter (λ c, startsWith (ch_name c) "I" = true) (analog_channels sr)) ∧
  sig_sr_channel <$> measurement_signal d
    = head (filter (λ c, ch_name c = "P1" ∨ ch_name c = "A1") (analog_channels sr)).
Proof.
  intros Hnew.
  destruct (HardwareDevice_new_ok _ _ _ Hnew)
    as (common & fixed_mq & _ & (Hv & Hc & Hm) & Hch & _).
  unfold voltage_signal, current_signal, measurement_signal.
  rewrite Hv, Hc, Hm, <- Hch. unfold internal_name.
  split; [|split].
  - exact (head_filter_fmap sig_sr_channel
             (λ c, startsWith (ch_name c) "V" = true) (all_signals_ d)).
  - exact (head_filter_fmap sig_sr_channel
             (λ c, startsWith (ch_name c) "I" = true) (all_signals_ d)).
  - exact (head_filter_fmap sig_sr_channel
             (λ c, ch_name c = "P1" ∨ ch_name c = "A1") (all_signals_ d)).
Qed.

Lemma canonical_signals_by_channel_witness :
  ∃ d, HardwareDevice_new clock0 demo_sr = Some d ∧
       sig_sr_channel <$> voltage_signal d = Some (analog_channel 1 "V1") ∧
       sig_sr_channel <$> current_signal d = None ∧
       sig_sr_channel <$> measurement_signal d = Some (analog_channel 0 "A1").
Proof.
  destruct (HardwareDevice_new clock0 demo_sr) as [d|] eqn:Hnew.
  - exists d. split; [reflexivity|].
    exact (canonical_signals_by_channel clock0 demo_sr d Hnew).
  - vm_compute in Hnew. discriminate Hnew.
Defined.

(** X13: a signal whose name starts with none of "V", "I", "F", "A" and is
    not "P1" gets a value buffer that no setter has touched: no quantity,
    no unit, and the fixed-quantity flag left at the buffer's default. *)
Theorem unclassified_signal_untouched clock sr d s :
  HardwareDevice_new clock sr = Some d →
  s ∈ all_signals d →
  startsWith (internal_name s) "V" = false →
  startsWith (internal_name s) "I" = false →
  startsWith (internal_name s) "F" = false →
  startsWith (internal_name s) "A" = false →
  internal_name s ≠ "P1" →
  (sig_data s ≫= λ a, analog_heap d !! a) = Some new_AnalogData ∧
  signal_quantity d s = None ∧ signal_unit d s = None.
Proof.
  intros Hnew Hin HV HI HF HA HP.
  destruct (HardwareDevice_new_ok _ _ _ Hnew) as (common & fixed_mq & [_ Hbuf] & _).
  destruct (Hbuf s Hin) as (_ & a & t & Ha & Hheap & _).
  unfold signal_quantity, signal_unit. rewrite Ha. simpl. rewrite Hheap. simpl.
  unfold init_signal_data. rewrite HV, HI, HF, HA.
  apply String.eqb_neq in HP. by rewrite HP.
Qed.

Lemma unclassified_signal_untouched_witness :
  ∃ d s, HardwareDevice_new clock0 meter_sr = Some d ∧
         s ∈ all_signals d ∧
         internal_name s = "P2" ∧
         (sig_data s ≫= λ a, analog_heap d !! a) = Some new_AnalogData ∧
         signal_quantity d s = None ∧ signal_unit d s = None.
Proof.
  destruct (HardwareDevice_new clock0 meter_sr) as [d|] eqn:Hnew.
  - assert (Hs : ∃ s, s ∈ all_signals d ∧ internal_name s = "P2").
    { vm_compute in Hnew. injection Hnew as <-. unfold all_signals. simpl.
      eexists. split; [apply list_elem_of_here|reflexivity]. }
    destruct Hs as (s & Hin & Hname).
    exists d, s. split; [reflexivity|]. split; [exact Hin|]. split; [exact Hname|].
    apply (unclassified_signal_untouched clock0 meter_sr d s Hnew Hin);
      rewrite Hname; first [reflexivity | discriminate].
  - vm_compute in Hnew. discriminate Hnew.
Defined.

(** ** Further properties: metadata *)

(** X14: feeding one metadata packet with the entries of two packets, one
    after the other, emits what feeding the two packets in turn emits: the
    emissions of an entry do not depend on the entries around it. *)
Theorem feed_in_meta_app clock sr d config1 config2 :
  HardwareDevice_new clock sr = Some d →
  ∃ emitted1 emitted2,
    feed_in_meta d config1 = Some emitted1 ∧
    feed_in_meta d config2 = Some emitted2 ∧
    feed_in_meta d (config1 ++ config2) = Some (emitted1 ++ emitted2).
Proof.
  intros Hnew.
  destruct (configurables_nonempty_head clock sr d Hnew) as (c & cs & Hcs).
  unfold feed_in_meta, configurables in *. rewrite Hcs. simpl.
  rewrite !feed_in_meta_loop_emits. simpl.
  eexists _, _. repeat split. by rewrite omap_app.
Qed.

Lemma feed_in_meta_app_witness :
  ∃ d emitted1 emitted2,
    HardwareDevice_new clock0 supply_sr = Some d ∧
    feed_in_meta d [(SR_CONF_VOLTAGE_TARGET, GVariantDouble 5%Z)] = Some emitted1 ∧
    feed_in_meta d [(SR_CONF_ENABLED, GVariantBoolean true)] = Some emitted2 ∧
    feed_in_meta d [(SR_CONF_VOLTAGE_TARGET, GVariantDouble 5%Z);
                    (SR_CONF_ENABLED, GVariantBoolean true)]
    = Some (emitted1 ++ emitted2).
Proof.
  destruct (HardwareDevice_new clock0 supply_sr) as [d|] eqn:Hnew.
  - destruct (feed_in_meta_app clock0 supply_sr d
                [(SR_CONF_VOLTAGE_TARGET, GVariantDouble 5%Z)]
                [(SR_CONF_ENABLED, GVariantBoolean true)] Hnew)
      as (emitted1 & emitted2 & H1 & H2 & H12).
    exists d, emitted1, emitted2. split; [reflexivity|]. split; [exact H1|].
    split; [exact H2|exact H12].
  - vm_compute in Hnew. discriminate Hnew.
Defined.

(** ** Further properties: the life cycle *)

(** X15: [close] is idempotent: a second [close] changes nothing and logs
    nothing, whatever the state of the first one was. *)
Theorem close_idempotent st : close (close st) = close st.
Proof.
  destruct (device_open_ st) eqn:Hopen.
  - destruct (close_joins st Hopen) as [_ Hclosed].
    generalize dependent (close st). intros st' Hclosed.
    unfold close. by rewrite Hclosed.
  - assert (Hst : close st = st) by (unfold close; by rewrite Hopen).
    by rewrite !Hst.
Qed.

(** X16: [open] on a device that is open is [close] followed by [open],
    and it never ends in [std::terminate]: the thread of the previous
    acquisition has been joined before the new thread is assigned. *)
Theorem reopen_closes_first drv error_handler n st :
  device_open_ st = true →
  open drv error_handler n st = open drv error_handler n (close st) ∧
  (open drv error_handler n st).1 ≠ Terminated.
Proof.
  intros Hopen. destruct (close_joins st Hopen) as [Hthread Hclosed].
  split.
  - unfold open at 1 2. by rewrite Hopen, Hclosed.
  - unfold open. rewrite Hopen. destruct (sr_open drv); [done|]. simpl.
    by rewrite Hthread.
Qed.

Lemma reopen_closes_first_witness :
  let st := (open run_out_of_memory (Some 0) 3 closed_session).2 in
  device_open_ st = true ∧
  open start_fails (Some 1) 0 st = open start_fails (Some 1) 0 (close st) ∧
  (open start_fails (Some 1) 0 st).1 ≠ Terminated.
Proof.
  split; [reflexivity|].
  exact (reopen_closes_first start_fails (Some 1) 0
           (open run_out_of_memory (Some 0) 3 closed_session).2 eq_refl).
Defined.

(** One statement that is not a failing assertion, from a live state. *)
Lemma exec_step_frame s st :
  aborted st = false → s ≠ Assert false →
  exec_step s st
  = {| device_open_ := device_open_ st;
       aquisition_state_ :=
         match s with SetState x => x | _ => aquisition_state_ st end;
       out_of_memory_ := step_oom s (out_of_memory_ st);
       aquisition_thread_ := aquisition_thread_ st;
       aborted := false;
       trace := trace st ++ step_events s (out_of_memory_ st) |}.
Proof.
  intros Hab Hs. unfold exec_step. rewrite Hab.
  destruct st as [o a m t ab tr]. simpl in Hab. subst ab.
  destruct s as [[|]| | | | |[[|]|]| |]; try done;
    unfold data_feed_in, log, set_out_of_memory, set_aquisition_state; simpl;
    rewrite <- ?app_assoc, ?app_nil_r, ?orb_true_r, ?orb_false_r; try done.
  by destruct m; simpl; rewrite ?app_nil_r.
Qed.

Lemma exec_steps_frame l st :
  aborted st = false → Forall (λ s, s ≠ Assert false) l →
  exec_steps l st
  = {| device_open_ := device_open_ st;
       aquisition_state_ := default (aquisition_state_ st) (last (state_assignments l));
       out_of_memory_ := steps_oom l (out_of_memory_ st);
       aquisition_thread_ := aquisition_thread_ st;
       aborted := false;
       trace := trace st ++ steps_events l (out_of_memory_ st) |}.
Proof.
  intros Hab Hl. revert st Hab.
  induction Hl as [|s l Hs Hl IH]; intros st Hab.
  - destruct st; simpl in *; subst. by rewrite app_nil_r.
  - change (exec_steps (s :: l) st) with (exec_steps l (exec_step s st)).
    rewrite (exec_step_frame s st Hab Hs), IH by done. simpl.
    rewrite <- app_assoc. f_equal.
    unfold state_assignments. destruct s; simpl; try done.
    rewrite last_cons. by destruct (last _).
Qed.

Lemma steps_events_app l1 l2 oom :
  steps_events (l1 ++ l2) oom
  = steps_events l1 oom ++ steps_events l2 (steps_oom l1 oom).
Proof.
  revert oom. induction l1 as [|s l1 IH]; intros oom; [done|].
  simpl. by rewrite IH, <- app_assoc.
Qed.

Lemma steps_oom_app l1 l2 oom :
  steps_oom (l1 ++ l2) oom = steps_oom l2 (steps_oom l1 oom).
Proof. unfold steps_oom. by rewrite foldl_app. Qed.

Lemma steps_feed packets oom :
  steps_events (map FeedIn packets) oom = feed_events packets ∧
  steps_oom (map FeedIn packets) oom = oom || existsb alloc_fails packets ∧
  state_assignments (map FeedIn packets) = [].
Proof.
  revert oom. induction packets as [|p packets IH]; intros oom.
  - by rewrite orb_false_r.
  - destruct (IH (oom || alloc_fails p)) as (Hev & Hoom & Hsa).
    split; [|split].
    + change (steps_events (map FeedIn (p :: packets)) oom)
        with ([EvFeedEnter; EvFeedLeave]
              ++ steps_events (map FeedIn packets) (oom || alloc_fails p)).
      by rewrite Hev.
    + change (steps_oom (map FeedIn packets) (oom || alloc_fails p) =
              oom || (alloc_fails p || existsb alloc_fails packets)).
      by rewrite Hoom, orb_assoc.
    + exact Hsa.
Qed.

Lemma thread_proc_asserts drv h :
  Forall (λ s, s ≠ Assert false) (aquisition_thread_proc drv (Some h)).
Proof.
  unfold aquisition_thread_proc.
  repeat (apply Forall_cons; split; [done|]).
  destruct (sr_start drv); [by repeat constructor|].
  repeat (apply Forall_cons; split; [done|]).
  apply Forall_app. split.
  - apply Forall_forall. intros s Hs. apply list_elem_of_In, in_map_iff in Hs.
    by destruct Hs as (p & <- & _).
  - destruct (sr_run drv); by repeat constructor.
Qed.

Lemma thread_proc_state_assignments drv h :
  state_assignments (aquisition_thread_proc drv (Some h))
  = match sr_start drv with Some _ => [] | None => [Running; Stopped] end.
Proof.
  unfold aquisition_thread_proc.
  destruct (sr_start drv); [done|].
  change (state_assignments
            ([Assert true; SetOutOfMemory false; DriverCall SessionStart;
              SetState Running; DriverCall SessionRun]
             ++ map FeedIn (sr_run_packets drv)
             ++ match sr_run drv with
                | Some e => [CallErrorHandler h e; SetState Stopped]
                | None => [SetState Stopped; FreeUnusedMemory; ReportOutOfMemory h]
                end) = [Running; Stopped]).
  unfold state_assignments. rewrite !omap_app.
  destruct (steps_feed (sr_run_packets drv) false) as (_ & _ & Hsa).
  unfold state_assignments in Hsa. rewrite Hsa.
  by destruct (sr_run drv).
Qed.

(** The events and the flag of one whole acquisition. *)
Lemma thread_proc_events drv h oom :
  handler_calls (steps_events (aquisition_thread_proc drv (Some h)) oom)
  = expected_handler_calls drv h ∧
  steps_oom (aquisition_thread_proc drv (Some h)) oom
  = match sr_start drv with
    | Some _ => false
    | None => existsb alloc_fails (sr_run_packets drv)
    end.
Proof.
  unfold aquisition_thread_proc, expected_handler_calls, handler_calls.
  destruct (sr_start drv) as [e|]; [done|].
  cbn [steps_events step_events step_oom app steps_oom foldl].
  fold (steps_oom (map FeedIn (sr_run_packets drv) ++
                   match sr_run drv with
                   | Some e => [CallErrorHandler h e; SetState Stopped]
                   | None => [SetState Stopped; FreeUnusedMemory; ReportOutOfMemory h]
                   end) false).
  rewrite steps_events_app, steps_oom_app.
  destruct (steps_feed (sr_run_packets drv) false) as (-> & -> & _).
  cbn [handler_calls_from orb]. rewrite handler_calls_from_feed.
  destruct (sr_run drv) as [e|]; [done|]. cbn.
  by destruct (existsb alloc_fails (sr_run_packets drv)).
Qed.

(** X17: what one acquisition reports, from any state and whatever the
    driver does: [error_handler] is called at most once and never inside
    the datafeed callback; a failure of start or of the run loop is
    reported with the driver's message, before the thread assigns
    [Stopped]; otherwise an out-of-memory condition of this run is reported
    after [Stopped], and nothing is reported when there was none. The flag
    that the thread finds is cleared first, so a condition of an earlier
    acquisition is never reported. The thread ends with [Stopped] unless
    start failed, in which case it leaves [aquisition_state_] alone. *)
Theorem acquisition_reports drv h st :
  aborted st = false →
  let st' := exec_steps (aquisition_thread_proc drv (Some h)) st in
  handler_calls (events_since st st') = expected_handler_calls drv h ∧
  aquisition_state_ st'
  = match sr_start drv with Some _ => aquisition_state_ st | None => Stopped end ∧
  out_of_memory_ st'
  = match sr_start drv with
    | Some _ => false
    | None => existsb alloc_fails (sr_run_packets drv)
    end.
Proof.
  intros Hab. cbv zeta.
  rewrite (exec_steps_frame _ st Hab (thread_proc_asserts drv h)).
  unfold events_since. cbn [trace aquisition_state_ out_of_memory_].
  rewrite drop_app_length.
  destruct (thread_proc_events drv h (out_of_memory_ st)) as [-> ->].
  split; [done|]. split; [|done].
  rewrite thread_proc_state_assignments. by destruct (sr_start drv).
Qed.

Lemma acquisition_reports_witness :
  aborted closed_session = false ∧
  let st' :=
    exec_steps (aquisition_thread_proc run_out_of_memory_raises (Some 0)) closed_session in
  handler_calls (events_since closed_session st')
  = [handler_call_of 0 "run failed" false] ∧
  aquisition_state_ st' = Stopped ∧
  out_of_memory_ st' = true.
Proof.
  split; [reflexivity|].
  exact (acquisition_reports run_out_of_memory_raises 0 closed_session eq_refl).
Defined.

Lemma thread_run_frame n st rest :
  aquisition_thread_ st = Some rest →
  aborted st = false →
  Forall (λ s, s ≠ Assert false) rest →
  thread_run n st
  = {| device_open_ := device_open_ st;
       aquisition_state_ :=
         default (aquisition_state_ st) (last (state_assignments (take n rest)));
       out_of_memory_ := steps_oom (take n rest) (out_of_memory_ st);
       aquisition_thread_ := Some (drop n rest);
       aborted := false;
       trace := trace st ++ steps_events (take n rest) (out_of_memory_ st) |}.
Proof.
  intros Hthread Hab Hrest. unfold thread_run. rewrite Hthread.
  by rewrite exec_steps_frame by auto using Forall_take.
Qed.

Lemma join_frame st rest :
  aquisition_thread_ st = Some rest →
  aborted st = false →
  Forall (λ s, s ≠ Assert false) rest →
  join st
  = {| device_open_ := device_open_ st;
       aquisition_state_ := default (aquisition_state_ st) (last (state_assignments rest));
       out_of_memory_ := steps_oom rest (out_of_memory_ st);
       aquisition_thread_ := None;
       aborted := false;
       trace := trace st ++ steps_events rest (out_of_memory_ st) |}.
Proof.
  intros Hthread Hab Hrest. unfold join. rewrite Hthread.
  by rewrite exec_steps_frame.
Qed.

(** The state that a successful [open] of a closed device returns, for
    the schedule [n]. *)
Lemma open_closed_state drv h n st :
  device_open_ st = false →
  aquisition_thread_ st = None →
  aborted st = false →
  sr_open drv = None →
  open drv (Some h) n st
  = (Returned,
     {| device_open_ := true;
        aquisition_state_ := Running;
        out_of_memory_ :=
          steps_oom (take n (aquisition_thread_proc drv (Some h))) (out_of_memory_ st);
        aquisition_thread_ := Some (drop n (aquisition_thread_proc drv (Some h)));
        aborted := false;
        trace :=
          trace st
          ++ [EvDriver DeviceOpen; EvDriver SessionAddDevice;
              EvDriver SessionAddDatafeedCallback]
          ++ steps_events (take n (aquisition_thread_proc drv (Some h)))
               (out_of_memory_ st)
          ++ [EvState Caller Running] |}).
Proof.
  intros Hclosed Hthread Hab Hopen.
  destruct st as [o a m t ab tr]. simpl in *. subst o t ab.
  set (s0 := {| device_open_ := true; aquisition_state_ := a; out_of_memory_ := m;
                aquisition_thread_ := Some (aquisition_thread_proc drv (Some h));
                aborted := false;
                trace := ((tr ++ [EvDriver DeviceOpen]) ++ [EvDriver SessionAddDevice])
                         ++ [EvDriver SessionAddDatafeedCallback] |}).
  assert (Heq : open drv (Some h) n
                  {| device_open_ := false; aquisition_state_ := a;
                     out_of_memory_ := m; aquisition_thread_ := None;
                     aborted := false; trace := tr |}
                = (Returned, set_aquisition_state Caller Running (thread_run n s0))).
  { unfold open. by rewrite Hopen. }
  rewrite Heq.
  rewrite (thread_run_frame n s0 _ eq_refl eq_refl (thread_proc_asserts drv h)).
  unfold set_aquisition_state. simpl. by rewrite <- !app_assoc.
Qed.

Lemma steps_take_drop l n oom :
  steps_events (take n l) oom ++ steps_events (drop n l) (steps_oom (take n l) oom)
  = steps_events l oom ∧
  steps_oom (drop n l) (steps_oom (take n l) oom) = steps_oom l oom.
Proof.
  rewrite <- steps_events_app, <- steps_oom_app. by rewrite take_drop.
Qed.

(** An assignment by the caller is invisible to the reading of a trace. *)
Lemma handler_calls_from_caller task_stopped in_feed tr1 s tr2 :
  handler_calls_from task_stopped in_feed (tr1 ++ EvState Caller s :: tr2)
  = handler_calls_from task_stopped in_feed (tr1 ++ tr2).
Proof.
  revert task_stopped in_feed.
  induction tr1 as [|e tr1 IH]; intros task_stopped in_feed; [done|].
  destruct e as [h msg|[|] x|c| |]; simpl; by rewrite IH.
Qed.

(** The state when the thread has run to its end after a successful
    [open] of a closed device. *)
Lemma open_closed_join drv h n st :
  device_open_ st = false →
  aquisition_thread_ st = None →
  aborted st = false →
  sr_open drv = None →
  let T := aquisition_thread_proc drv (Some h) in
  let st' := join (open drv (Some h) n st).2 in
  aquisition_state_ st' = default Running (last (state_assignments (drop n T))) ∧
  out_of_memory_ st' = steps_oom T (out_of_memory_ st) ∧
  handler_calls (events_since st st')
  = handler_calls (steps_events T (out_of_memory_ st)).
Proof.
  intros Hclosed Hthread Hab Hopen. cbv zeta.
  rewrite (open_closed_state drv h n st Hclosed Hthread Hab Hopen).
  cbn [snd].
  erewrite join_frame;
    [|reflexivity|reflexivity|apply Forall_drop, thread_proc_asserts].
  unfold events_since.
  cbn [aquisition_thread_ device_open_ aquisition_state_ out_of_memory_ aborted trace].
  destruct (steps_take_drop (aquisition_thread_proc drv (Some h)) n (out_of_memory_ st))
    as [Hev Hoom].
  split; [done|]. split; [done|].
  rewrite <- !app_assoc, drop_app_length. unfold handler_calls.
  cbn [app handler_calls_from].
  rewrite handler_calls_from_caller. by rewrite Hev.
Qed.

(** The assignments to [aquisition_state_] that the thread still has
    ahead after [m] statements. *)
Lemma thread_proc_pending_assignments drv h m :
  let pending := state_assignments (drop m (aquisition_thread_proc drv (Some h))) in
  pending = [] ∨ pending = [Stopped] ∨ pending = [Running; Stopped].
Proof.
  cbv zeta.
  pose proof (thread_proc_state_assignments drv h) as Hall.
  rewrite <- (take_drop m (aquisition_thread_proc drv (Some h))) in Hall.
  unfold state_assignments in *. rewrite omap_app in Hall.
  destruct (omap _ (take m _)) as [|a [|b [|c k]]];
    destruct (omap _ (drop m _)) as [|x [|y [|z l]]];
    destruct (sr_start drv); simplify_eq/=; auto.
Qed.

(** X18: the reports of an acquisition do not depend on the schedule:
    after a successful [open] of a closed device, whenever the caller's
    closing assignment falls between the statements of the new thread, the
    calls of [error_handler] up to the end of the thread are those of the
    thread run on its own, and so is the out-of-memory flag. *)
Theorem reports_schedule_independent drv h n st :
  device_open_ st = false →
  aquisition_thread_ st = None →
  aborted st = false →
  sr_open drv = None →
  let st' := join (open drv (Some h) n st).2 in
  handler_calls (events_since st st') = expected_handler_calls drv h ∧
  out_of_memory_ st'
  = match sr_start drv with
    | Some _ => false
    | None => existsb alloc_fails (sr_run_packets drv)
    end.
Proof.
  intros Hclosed Hthread Hab Hopen.
  destruct (open_closed_join drv h n st Hclosed Hthread Hab Hopen) as (_ & Hoom & Hcalls).
  cbv zeta. rewrite Hoom, Hcalls.
  exact (thread_proc_events drv h (out_of_memory_ st)).
Qed.

Lemma reports_schedule_independent_witness :
  device_open_ closed_session = false ∧
  aquisition_thread_ closed_session = None ∧
  aborted closed_session = false ∧
  sr_open run_out_of_memory = None ∧
  let st' := join (open run_out_of_memory (Some 0) 7 closed_session).2 in
  handler_calls (events_since closed_session st')
  = [handler_call_of 0 out_of_memory_message true] ∧
  out_of_memory_ st' = true.
Proof.
  do 4 (split; [reflexivity|]).
  exact (reports_schedule_independent run_out_of_memory 0 7 closed_session
           eq_refl eq_refl eq_refl eq_refl).
Defined.

(** X19: the race on [aquisition_state_] between [open] and the new
    thread: after a successful [open] of a closed device, when the thread
    has ended, [aquisition_state_] is [Stopped] exactly if the thread's
    assignment of [Stopped] was still ahead when the caller assigned
    [Running] (the thread had executed [n] statements by then); otherwise
    it is [Running], although no acquisition is running. *)
Theorem final_state_by_schedule drv h n st :
  device_open_ st = false →
  aquisition_thread_ st = None →
  aborted st = false →
  sr_open drv = None →
  let st' := join (open drv (Some h) n st).2 in
  (aquisition_state_ st' = Stopped
   ↔ SetState Stopped ∈ drop n (aquisition_thread_proc drv (Some h))) ∧
  (aquisition_state_ st' = Running
   ↔ SetState Stopped ∉ drop n (aquisition_thread_proc drv (Some h))).
Proof.
  intros Hclosed Hthread Hab Hopen.
  destruct (open_closed_join drv h n st Hclosed Hthread Hab Hopen) as (Hstate & _).
  cbv zeta. rewrite Hstate.
  assert (Hin : SetState Stopped ∈ drop n (aquisition_thread_proc drv (Some h))
                ↔ Stopped ∈ state_assignments
                              (drop n (aquisition_thread_proc drv (Some h)))).
  { unfold state_assignments. rewrite list_elem_of_omap. split.
    - intros Hs. by exists (SetState Stopped).
    - intros (s & Hs & Heq). destruct s; simplify_eq/=. done. }
  rewrite Hin.
  destruct (thread_proc_pending_assignments drv h n) as [Hp|[Hp|Hp]];
    cbv zeta in Hp; rewrite Hp; simpl; split; split; try done.
  - by intros ?%elem_of_nil.
  - intros _. by apply not_elem_of_nil.
  - intros _. apply list_elem_of_here.
  - intros Hnot. destruct Hnot. apply list_elem_of_here.
  - intros _. apply list_elem_of_further, list_elem_of_here.
  - intros Hnot. destruct Hnot. apply list_elem_of_further, list_elem_of_here.
Qed.

Lemma final_state_by_schedule_witness :
  device_open_ closed_session = false ∧
  aquisition_thread_ closed_session = None ∧
  aborted closed_session = false ∧
  sr_open run_out_of_memory = None ∧
  aquisition_state_ (join (open run_out_of_memory (Some 0) 9 closed_session).2) = Running ∧
  aquisition_state_ (join (open run_out_of_memory (Some 0) 8 closed_session).2) = Stopped.
Proof.
  do 4 (split; [reflexivity|]). split.
  - apply (final_state_by_schedule run_out_of_memory 0 9 closed_session
             eq_refl eq_refl eq_refl eq_refl).
    intros Hin. vm_compute in Hin.
    repeat (apply elem_of_cons in Hin as [Hin|Hin]; [discriminate Hin|]).
    by apply elem_of_nil in Hin.
  - apply (final_state_by_schedule run_out_of_memory 0 8 closed_session
             eq_refl eq_refl eq_refl eq_refl).
    apply list_elem_of_here.
Defined.

(** [close] of an open device whose thread has the statements [rest]
    ahead. *)
Lemma close_frame st rest :
  device_open_ st = true →
  aquisition_thread_ st = Some rest →
  aborted st = false →
  Forall (λ s, s ≠ Assert false) rest →
  close st
  = {| device_open_ := false;
       aquisition_state_ := default Stopped (last (state_assignments rest));
       out_of_memory_ := steps_oom rest (out_of_memory_ st);
       aquisition_thread_ := None;
       aborted := false;
       trace :=
         trace st
         ++ [EvDriver SessionRemoveDatafeedCallbacks]
         ++ (if bool_decide (aquisition_state_ st ≠ Stopped)
             then [EvDriver SessionStop; EvState Caller Stopped] else [])
         ++ steps_events rest (out_of_memory_ st)
         ++ [EvDriver SessionRemoveDevices; EvDriver DeviceClose] |}.
Proof.
  intros Hopen Hthread Hab Hrest.
  destruct st as [o a m t ab tr]. simpl in *. subst o t ab.
  assert (Hs : bool_decide (Stopped ≠ Stopped) = false).
  { apply bool_decide_eq_false. by intros Hne. }
  assert (Hr : bool_decide (Running ≠ Stopped) = true).
  { by apply bool_decide_eq_true. }
  destruct a; unfold close; cbn -[join bool_decide]; rewrite ?Hs, ?Hr;
    cbn -[join];
    (erewrite join_frame; [|reflexivity|reflexivity|exact Hrest]);
    unfold set_device_open, log; simpl; by rewrite <- !app_assoc.
Qed.

(** X20: [open] and [close] in sequence: a closed device that is opened
    with success and closed again, however far the acquisition thread has
    got by then and whatever the driver did, is closed, has no thread left,
    and is in state [Stopped]. *)
Theorem open_close_stops drv h n k st :
  device_open_ st = false →
  aquisition_thread_ st = None →
  aborted st = false →
  sr_open drv = None →
  let st' := close (thread_run k (open drv (Some h) n st).2) in
  device_open_ st' = false ∧
  aquisition_thread_ st' = None ∧
  aquisition_state_ st' = Stopped ∧
  aborted st' = false.
Proof.
  intros Hclosed Hthread Hab Hopen. cbv zeta.
  rewrite (open_closed_state drv h n st Hclosed Hthread Hab Hopen). cbn [snd].
  erewrite thread_run_frame;
    [|reflexivity|reflexivity|apply Forall_drop, thread_proc_asserts].
  erewrite close_frame;
    [|reflexivity|reflexivity|reflexivity
     |apply Forall_drop, Forall_drop, thread_proc_asserts].
  cbn [device_open_ aquisition_thread_ aquisition_state_ aborted].
  repeat split. rewrite drop_drop.
  by destruct (thread_proc_pending_assignments drv h (n + k)) as [Hp|[Hp|Hp]];
    cbv zeta in Hp; rewrite Hp.
Qed.

Lemma open_close_stops_witness :
  device_open_ closed_session = false ∧
  aquisition_thread_ closed_session = None ∧
  aborted closed_session = false ∧
  sr_open start_fails = None ∧
  let st' := close (thread_run 1 (open start_fails (Some 0) 2 closed_session).2) in
  device_open_ st' = false ∧
  aquisition_thread_ st' = None ∧
  aquisition_state_ st' = Stopped ∧
  aborted st' = false.
Proof.
  do 4 (split; [reflexivity|]).
  exact (open_close_stops start_fails 0 2 1 closed_session
           eq_refl eq_refl eq_refl eq_refl).
Defined.

(** ** Further properties: the source/sink tab *)

(** ** Further properties: the source/sink tab *)

Import SourceSinkTab.

Lemma setup_ui_channel group pv v c calls ch :
  pv = None ∨ pv = Some (PlotView group) →
  ∃ pv' calls',
    channel_step group (pv, v, c, calls) ch
    = (pv',
       from_option Some v (last (fixed_signals Voltage [ch])),
       from_option Some c (last (fixed_signals Current [ch])),
       calls') ∧
    (pv' = None ∨ pv' = Some (PlotView group)) ∧
    power_panels calls' = power_panels calls ∧
    curves calls' = curves calls ++ (pair (PlotView group) <$> plotted_signals [ch]).
Proof.
  intros Hpv. unfold channel_step, fixed_signals, plotted_signals, power_panels, curves.
  rewrite !filter_cons, !filter_nil.
  destruct ch as [[|] [n [| |]]]; simpl;
    destruct Hpv as [-> | ->]; simpl;
    eexists _, _; (split; [reflexivity|]);
    rewrite ?omap_app, ?app_nil_r; simpl; auto.
Qed.

Lemma fixed_signals_cons q ch chs :
  fixed_signals q (ch :: chs) = fixed_signals q [ch] ++ fixed_signals q chs.
Proof.
  unfold fixed_signals. change (ch :: chs) with ([ch] ++ chs).
  by rewrite filter_app, fmap_app.
Qed.

Lemma plotted_signals_cons ch chs :
  plotted_signals (ch :: chs) = plotted_signals [ch] ++ plotted_signals chs.
Proof.
  unfold plotted_signals. change (ch :: chs) with ([ch] ++ chs).
  by rewrite filter_app, fmap_app.
Qed.

Lemma setup_ui_channels group chs pv v c calls :
  pv = None ∨ pv = Some (PlotView group) →
  ∃ pv' calls',
    foldl (channel_step group) (pv, v, c, calls) chs
    = (pv',
       from_option Some v (last (fixed_signals Voltage chs)),
       from_option Some c (last (fixed_signals Current chs)),
       calls') ∧
    (pv' = None ∨ pv' = Some (PlotView group)) ∧
    power_panels calls' = power_panels calls ∧
    curves calls' = curves calls ++ (pair (PlotView group) <$> plotted_signals chs).
Proof.
  revert pv v c calls. induction chs as [|ch chs IH]; intros pv v c calls Hpv.
  - exists pv, calls. by rewrite app_nil_r.
  - destruct (setup_ui_channel group pv v c calls ch Hpv)
      as (pv1 & calls1 & Hstep & Hpv1 & Hpp1 & Hcv1).
    destruct (IH pv1 (from_option Some v (last (fixed_signals Voltage [ch])))
                (from_option Some c (last (fixed_signals Current [ch]))) calls1 Hpv1)
      as (pv' & calls' & Hrun & Hpv' & Hpp & Hcv).
    exists pv', calls'. simpl. rewrite Hstep, Hrun.
    rewrite (fixed_signals_cons Voltage ch chs), (fixed_signals_cons Current ch chs),
      (plotted_signals_cons ch chs), !last_app.
    split; [|split; [done|split; [congruence|]]].
    + by destruct (last (fixed_signals Voltage chs)),
        (last (fixed_signals Current chs)).
    + by rewrite Hcv, Hcv1, fmap_app, app_assoc.
Qed.

Lemma setup_ui_group first calls g :
  ∃ first' calls',
    group_step (first, calls) g = (first', calls') ∧
    power_panels calls' = power_panels calls ++ power_panel_of g ∧
    curves calls' = curves calls ++ (pair (PlotView g.1) <$> plotted_signals g.2).
Proof.
  unfold group_step, power_panel_of.
  destruct (setup_ui_channels g.1 g.2 None None None calls (or_introl eq_refl))
    as (pv' & calls' & -> & _ & Hpp & Hcv).
  destruct (last (fixed_signals Voltage g.2)) as [v|],
    (last (fixed_signals Current g.2)) as [c|]; simpl;
    try (eexists _, _; split; [reflexivity|]; by rewrite Hpp, ?app_nil_r).
  destruct first; eexists _, _; (split; [reflexivity|]);
    unfold power_panels, curves in *; rewrite !omap_app, Hpp, Hcv; simpl;
    by rewrite ?app_nil_r.
Qed.

Lemma setup_ui_groups first calls gm :
  power_panels (foldl group_step (first, calls) gm).2
  = power_panels calls ++ (gm ≫= power_panel_of) ∧
  curves (foldl group_step (first, calls) gm).2
  = curves calls ++ (gm ≫= λ g, pair (PlotView g.1) <$> plotted_signals g.2).
Proof.
  revert first calls. induction gm as [|g gm IH]; intros first calls.
  - by rewrite !app_nil_r.
  - destruct (setup_ui_group first calls g) as (first' & calls' & Hstep & Hpp & Hcv).
    cbn [foldl]. rewrite Hstep. destruct (IH first' calls') as [-> ->].
    rewrite !bind_cons. by rewrite Hpp, Hcv, <- !app_assoc.
Qed.

Lemma show_first_views first size calls :
  power_panels (show_first first size calls) = power_panels calls ∧
  curves (show_first first size calls) = curves calls.
Proof.
  unfold show_first, power_panels, curves.
  destruct first; [|done]. destruct (Nat.ltb 1 size); [|done].
  by rewrite !omap_app, !app_nil_r.
Qed.

Lemma setup_ui_configurables first calls cm :
  foldl configurable_step (first, calls) cm
  = (match first with Some f => Some f | None => head (configurable_views cm) end,
     calls ++ dock first (configurable_views cm)).
Proof.
  revert first calls. induction cm as [|[n [ctl v]] cm IH]; intros first calls.
  - destruct first; simpl; by rewrite app_nil_r.
  - cbn [foldl].
    destruct ctl, v as [id|], first as [f|];
      unfold configurable_step at 2; cbn [snd is_controllable view_for_configurable negb];
      rewrite IH; simpl; by rewrite <- ?app_assoc.
Qed.

Lemma dock_views first views :
  power_panels (dock first views) = [] ∧ curves (dock first views) = [].
Proof.
  unfold dock, power_panels, curves.
  destruct first as [f|]; [|destruct views as [|v views]; [done|]; simpl];
    induction views as [|w views [IH1 IH2]]; done.
Qed.

(** The calls of [setup_ui], taken apart. *)
Lemma setup_ui_eq cm gm :
  setup_ui cm gm
  = show_first
      (foldl group_step
         (None, show_first (head (configurable_views cm)) (length cm)
                  (dock None (configurable_views cm))) gm).1
      (length gm)
      (foldl group_step
         (None, show_first (head (configurable_views cm)) (length cm)
                  (dock None (configurable_views cm))) gm).2.
Proof.
  unfold setup_ui. rewrite setup_ui_configurables. cbn [app].
  by destruct (foldl group_step _ gm).
Qed.

(** X21: the power panels of the tab: a channel group gets a power panel
    exactly when it has a channel with a fixed voltage signal and one with
    a fixed current signal, and the panel is built from the last such
    voltage signal and the last such current signal of the group; the
    panels come in the order of the groups, and the configurables play no
    role. *)
Theorem setup_ui_power_panels cm gm :
  power_panels (setup_ui cm gm) = gm ≫= power_panel_of.
Proof.
  rewrite setup_ui_eq.
  destruct (show_first_views
              (foldl group_step
                 (None, show_first (head (configurable_views cm)) (length cm)
                          (dock None (configurable_views cm))) gm).1 (length gm)
              (foldl group_step
                 (None, show_first (head (configurable_views cm)) (length cm)
                          (dock None (configurable_views cm))) gm).2) as [-> _].
  destruct (setup_ui_groups None
              (show_first (head (configurable_views cm)) (length cm)
                 (dock None (configurable_views cm))) gm) as [-> _].
  destruct (show_first_views (head (configurable_views cm)) (length cm)
              (dock None (configurable_views cm))) as [-> _].
  by destruct (dock_views None (configurable_views cm)) as [-> _].
Qed.


(** X23: the configurable views of the tab (a device without channel
    groups): only a controllable configurable for which the view helper
    has a view gets one; the first of these views is docked in the top
    area and every later one on top of the first; the first is shown and
    raised exactly when the device has more than one configurable, with a
    view or not. *)
Theorem setup_ui_configurable_views cm :
  setup_ui cm []
  = match configurable_views cm with
    | [] => []
    | first :: others =>
        add_view first TopDockWidgetArea
        :: ((λ w, add_view_ontop w first) <$> others)
        ++ (if Nat.ltb 1 (length cm) then [show first; raise first] else [])
    end.
Proof.
  rewrite setup_ui_eq. simpl.
  destruct (configurable_views cm) as [|first others]; [done|]. simpl.
  destruct (Nat.ltb 1 (length cm)); [done|]. by rewrite app_nil_r.
Qed.

(** The calls made so far are only appended to. *)
Lemma channel_step_calls group pv v c calls ch :
  channel_step group (pv, v, c, calls) ch
  = ((channel_step group (pv, v, c, []) ch).1,
     calls ++ (channel_step group (pv, v, c, []) ch).2).
Proof.
  unfold channel_step, plot.
  destruct ch as [[|] [n [| |]]], pv; simpl; by rewrite ?app_nil_r.
Qed.

Lemma channels_calls group chs acc calls :
  foldl (channel_step group) (acc, calls) chs
  = ((foldl (channel_step group) (acc, []) chs).1,
     calls ++ (foldl (channel_step group) (acc, []) chs).2).
Proof.
  revert acc calls. induction chs as [|ch chs IH]; intros [[pv v] c] calls.
  - simpl. by rewrite app_nil_r.
  - cbn [foldl]. rewrite (channel_step_calls group pv v c calls ch).
    destruct (channel_step group (pv, v, c, []) ch) as [acc1 calls1]. cbn [fst snd].
    rewrite (IH acc1 (calls ++ calls1)), (IH acc1 calls1). cbn [fst snd].
    by rewrite app_assoc.
Qed.

Lemma group_step_calls first calls g :
  group_step (first, calls) g
  = ((group_step (first, []) g).1, calls ++ (group_step (first, []) g).2).
Proof.
  unfold group_step.
  rewrite (channels_calls g.1 g.2 (None, None, None) calls).
  destruct (foldl (channel_step g.1) (None, None, None, []) g.2) as [[[pv v] c] calls1].
  cbn [fst snd].
  destruct v, c, first; simpl; by rewrite <- ?app_assoc.
Qed.

Lemma groups_calls first calls gm :
  foldl group_step (first, calls) gm
  = ((foldl group_step (first, []) gm).1,
     calls ++ (foldl group_step (first, []) gm).2).
Proof.
  revert first calls. induction gm as [|g gm IH]; intros first calls.
  - simpl. by rewrite app_nil_r.
  - cbn [foldl]. rewrite (group_step_calls first calls g).
    destruct (group_step (first, []) g) as [first1 calls1]. cbn [fst snd].
    rewrite (IH first1 (calls ++ calls1)), (IH first1 calls1). cbn [fst snd].
    by rewrite app_assoc.
Qed.

Lemma setup_ui_nil_r cm :
  setup_ui cm []
  = show_first (head (configurable_views cm)) (length cm)
      (dock None (configurable_views cm)).
Proof. by rewrite setup_ui_eq. Qed.

Lemma setup_ui_nil_l gm :
  setup_ui [] gm
  = show_first (foldl group_step (None, []) gm).1 (length gm)
      (foldl group_step (None, []) gm).2.
Proof. by rewrite setup_ui_eq. Qed.

(** X24: the two halves of the tab do not influence each other: the calls
    of [setup_ui] are those it makes for the configurables alone followed
    by those it makes for the channel groups alone. *)
Theorem setup_ui_app cm gm :
  setup_ui cm gm = setup_ui cm [] ++ setup_ui [] gm.
Proof.
  rewrite setup_ui_nil_r, setup_ui_nil_l, setup_ui_eq.
  rewrite (groups_calls None
             (show_first (head (configurable_views cm)) (length cm)
                (dock None (configurable_views cm))) gm).
  cbn [fst snd].
  generalize (show_first (head (configurable_views cm)) (length cm)
                (dock None (configurable_views cm))).
  intros calls. destruct (foldl group_step (None, []) gm) as [first calls'].
  cbn [fst snd]. unfold show_first.
  destruct first; [|done]. destruct (Nat.ltb 1 (length gm)); [|done].
  by rewrite app_assoc.
Qed.

Example setup_ui_two_outputs :
  let v1 := {| name := "V1"; quantity := Voltage |} in
  let i1 := {| name := "I1"; quantity := Current |} in
  let v2 := {| name := "V2"; quantity := Voltage |} in
  let fixed s := {| fixed_signal := true; actual_signal := s |} in
  setup_ui
    [("1", {| is_controllable := true; view_for_configurable := Some 7 |});
     ("2", {| is_controllable := false; view_for_configurable := Some 8 |})]
    [("1", [fixed v1; fixed i1]); ("2", [fixed v2])]
  = [add_view (ConfigurableView 7) TopDockWidgetArea;
     show (ConfigurableView 7); raise (ConfigurableView 7);
     new_PlotView "1" v1; add_view (PlotView "1") BottomDockWidgetArea;
     add_time_curve (PlotView "1") i1;
     new_PowerPanelView "1" v1 i1; add_view (PowerPanelView "1") TopDockWidgetArea;
     new_PlotView "2" v2; add_view (PlotView "2") BottomDockWidgetArea;
     show (PowerPanelView "1"); raise (PowerPanelView "1")].
Proof. reflexivity. Qed.
